(** * Reactive forms integration tests, change-detection notes and the
      component-styles example: a shallow embedding

    The development follows the three source files:
    - [reactive_integration_spec] (the forms integration tests and their
      helper validators [asyncValidator], [uniqLoginAsyncValidator] and
      [loginIsEmptyGroupValidator]);
    - [study-remark/checkAndUpdateView.md] (the thirteen documented steps of
      one change-detection pass over a view);
    - [quest-summary.component.ts] (the documentation example component).

    JavaScript values are embedded as an inductive type, numbers as IEEE 754
    binary64 floats, promises and timers as an explicit event-loop state with
    a virtual clock (the [fakeAsync]/[tick] discipline the tests use). *)

From Stdlib Require Import PrimFloat ZArith Lia Ascii DecimalString.
From stdpp Require Import base option list strings gmap.

Set Warnings "-register-all,-clear-no-such-hyp".

Local Open Scope string_scope.
Local Open Scope Z_scope.

(** ** JavaScript values *)

(** The values a form control can hold and a validator can return:
    primitives, arrays and plain (literal) objects. *)
Inductive js_value : Type :=
| VUndefined
| VNull
| VBool (b : bool)
| VNumber (n : float)
| VString (s : string)
| VArray (elems : list js_value)
| VObject (fields : list (string * js_value)).

(** What the host's [Number::toString] is assumed to satisfy: it is never
    the empty string. The conversion itself is the host's. *)
Class Host := {
  NumberToString : float -> string;
  NumberToString_nonempty : forall n, NumberToString n <> ""
}.

Definition is_nullish (v : js_value) : bool :=
  match v with
  | VUndefined | VNull => true
  | _ => false
  end.

(** [ToBoolean]: undefined, null, false, +0, -0, NaN and the empty string
    are falsy, everything else (every object) is truthy. *)
Definition truthy (v : js_value) : bool :=
  match v with
  | VUndefined | VNull => false
  | VBool b => b
  | VNumber n => negb (PrimFloat.eqb n 0%float) && PrimFloat.eqb n n
  | VString s => negb (String.eqb s "")
  | VArray _ | VObject _ => true
  end.

(** ** Completions *)

Inductive js_error : Type :=
| TypeError (msg : string)
| Error (msg : string).

Inductive completion (A : Type) : Type :=
| Normal (a : A)
| Throw (e : js_error).
Arguments Normal {A} a.
Arguments Throw {A} e.

(** An abrupt completion ends the evaluation it occurs in. *)
Definition and_then {A B : Type} (r : completion A) (k : A -> completion B)
  : completion B :=
  match r with
  | Normal a => k a
  | Throw e => Throw e
  end.

(** ** Conversions *)

(** [Array.prototype.join] with the separator [","], over the strings of
    the elements. *)
Fixpoint join_comma (parts : list string) : string :=
  match parts with
  | [] => ""
  | [p] => p
  | p :: rest => p ++ "," ++ join_comma rest
  end.

(** The own property [k] of an object. The fields are read as an object
    literal writes them, so a repeated key has its last value. *)
Fixpoint own_property (k : string) (fields : list (string * js_value))
  : option js_value :=
  match fields with
  | [] => None
  | (k', v) :: rest =>
      match own_property k rest with
      | Some v' => Some v'
      | None => if String.eqb k' k then Some v else None
      end
  end.

Definition has_own (k : string) (fields : list (string * js_value)) : bool :=
  match own_property k fields with
  | Some _ => true
  | None => false
  end.

(** What [OrdinaryToPrimitive] throws when neither [toString] nor [valueOf]
    gives a primitive. *)
Definition cannot_convert : js_error :=
  TypeError "Cannot convert object to primitive value".

Section WithHost.
Context `{Host}.

(** [ToString]. An array has no own [toString], so [Array.prototype.toString]
    joins its elements with commas, where an undefined or null element
    contributes the empty string and every other element its own
    [ToString]. A plain object inherits [Object.prototype.toString], which
    gives ["[object Object]"], unless it has an own property [toString]:
    the values here are data, so that property is not callable, the
    inherited [valueOf] returns the object itself (and an own [valueOf] is
    not callable either), and the conversion throws a TypeError. *)
Fixpoint ToString (v : js_value) : completion string :=
  match v with
  | VUndefined => Normal "undefined"
  | VNull => Normal "null"
  | VBool true => Normal "true"
  | VBool false => Normal "false"
  | VNumber n => Normal (NumberToString n)
  | VString s => Normal s
  | VArray elems =>
      match (fix each (l : list js_value) : completion (list string) :=
               match l with
               | [] => Normal []
               | x :: l' =>
                   match (if is_nullish x then Normal "" else ToString x) with
                   | Throw e => Throw e
                   | Normal p =>
                       match each l' with
                       | Throw e => Throw e
                       | Normal ps => Normal (p :: ps)
                       end
                   end
               end) elems with
      | Normal parts => Normal (join_comma parts)
      | Throw e => Throw e
      end
  | VObject fields =>
      if has_own "toString" fields then Throw cannot_convert
      else Normal "[object Object]"
  end.

(** The strings [Array.prototype.join] joins. *)
Fixpoint strings_of (l : list js_value) : completion (list string) :=
  match l with
  | [] => Normal []
  | x :: l' =>
      match (if is_nullish x then Normal "" else ToString x) with
      | Throw e => Throw e
      | Normal p =>
          match strings_of l' with
          | Throw e => Throw e
          | Normal ps => Normal (p :: ps)
          end
      end
  end.

(** [ToPrimitive] of an array or a plain object, without a hint: [valueOf]
    is tried first and gives no primitive, then [toString], so the result
    is the one of [ToString]. *)
Definition ToPrimitive (x : js_value) : completion string := ToString x.

(** [x == ''] (IsLooselyEqual with the empty string on the right):
    - undefined and null are loosely equal only to each other;
    - a string is compared as a string;
    - a number is compared with [ToNumber('')], which is [+0];
    - a boolean is first converted to a number ([false] is [+0]);
    - an object is converted with [ToPrimitive], which may throw, and its
      primitive, a string, is compared as a string. *)
Definition loose_eq_empty_string (x : js_value) : completion bool :=
  match x with
  | VUndefined | VNull => Normal false
  | VBool b => Normal (negb b)
  | VNumber n => Normal (PrimFloat.eqb n 0%float)
  | VString s => Normal (String.eqb s "")
  | VArray _ | VObject _ =>
      and_then (ToPrimitive x) (fun s => Normal (String.eqb s ""))
  end.

(** The value sanitization of [<input type="text">]: line breaks (LF and
    CR) are stripped from a value assigned to the element. *)
Definition is_line_break (c : ascii) : bool :=
  Ascii.eqb c "010"%char || Ascii.eqb c "013"%char.

Fixpoint strip_newlines (s : string) : string :=
  match s with
  | EmptyString => EmptyString
  | String c s' =>
      if is_line_break c then strip_newlines s'
      else String c (strip_newlines s')
  end.

(** What the text input holds after the value accessor has written [x]:
    the accessor writes the empty string for null and undefined, the
    element's setter converts what it is given to a string, which may
    throw, and sanitizes it. *)
Definition element_string (x : js_value) : completion string :=
  and_then (if is_nullish x then Normal "" else ToString x)
           (fun s => Normal (strip_newlines s)).

End WithHost.

(** [x === s] for a string [s]: [x] is a string with the same characters. *)
Definition strict_eq_string (x : js_value) (s : string) : bool :=
  match x with
  | VString s' => String.eqb s' s
  | _ => false
  end.

(** ** The public face of a control *)

Inductive Status : Type := VALID | INVALID | PENDING.

(** Modelled from the spec: the framework's [AbstractControl], whose
    declaration is outside the files at hand, as far as a validator reads
    it. *)
Record AbstractControl : Type := {
  value : js_value;
  errors : js_value;
  status : Status;
  pristine : bool;
  touched : bool
}.

(** Modelled from the spec: the framework's [FormGroup], as far as
    [loginIsEmptyGroupValidator] reads it: its [controls] by name. *)
Record FormGroup : Type := {
  controls : gmap string AbstractControl
}.

(** ** The event loop under [fakeAsync] *)

Inductive promise_state : Type :=
| Pending
| Fulfilled (v : js_value).

(** The only timer callback of the source is [() => resolve(res)]. *)
Record timer : Type := {
  due : Z;
  target : nat;
  result : js_value
}.

Record event_loop : Type := {
  now : Z;
  next_promise : nat;
  promises : gmap nat promise_state;
  timers : list timer
}.

(** [new Promise(res => { resolve = res })] *)
Definition new_promise (el : event_loop) : nat * event_loop :=
  (next_promise el,
   {| now := now el;
      next_promise := S (next_promise el);
      promises := <[next_promise el := Pending]> (promises el);
      timers := timers el |}).

(** Calling a promise's [resolve]: only a pending promise changes. *)
Definition resolve (p : nat) (v : js_value) (el : event_loop) : event_loop :=
  match promises el !! p with
  | Some Pending =>
      {| now := now el;
         next_promise := next_promise el;
         promises := <[p := Fulfilled v]> (promises el);
         timers := timers el |}
  | _ => el
  end.

(** [setTimeout(() => resolve(res), timeout)]: a negative delay counts as 0. *)
Definition setTimeout (p : nat) (res : js_value) (timeout : Z) (el : event_loop)
  : event_loop :=
  {| now := now el;
     next_promise := next_promise el;
     promises := promises el;
     timers := timers el ++ [{| due := now el + Z.max 0 timeout;
                               target := p; result := res |}] |}.

(** Timers run in the order of their due time, and in the order they were
    set when due together. *)
Fixpoint insert_by_due (t : timer) (sorted : list timer) : list timer :=
  match sorted with
  | [] => [t]
  | u :: rest =>
      if due u <=? due t then u :: insert_by_due t rest
      else t :: u :: rest
  end.

Definition sort_by_due (l : list timer) : list timer :=
  foldl (fun acc t => insert_by_due t acc) [] l.

Definition is_due (limit : Z) (t : timer) : bool := due t <=? limit.

Definition due_timers (limit : Z) (el : event_loop) : list timer :=
  sort_by_due (filter (fun t => is_due limit t = true) (timers el)).

Definition later_timers (limit : Z) (el : event_loop) : list timer :=
  filter (fun t => is_due limit t = false) (timers el).

Definition run_timer (t : timer) (el : event_loop) : event_loop :=
  resolve (target t) (result t)
    {| now := Z.max (now el) (due t);
       next_promise := next_promise el;
       promises := promises el;
       timers := timers el |}.

(** [tick(ms)]: the virtual clock advances by [ms] and every timer due by
    then has run. *)
Definition tick (ms : Z) (el : event_loop) : event_loop :=
  let limit := now el + Z.max 0 ms in
  let el' := foldl (fun acc t => run_timer t acc)
               {| now := now el;
                  next_promise := next_promise el;
                  promises := promises el;
                  timers := later_timers limit el |}
               (due_timers limit el) in
  {| now := limit;
     next_promise := next_promise el';
     promises := promises el';
     timers := timers el' |}.

(** ** Helper validators of the test file *)

Definition default_async_error : js_value := VObject [("async", VBool true)].

(** [asyncValidator(checker, timeout = 0, error = {'async': true})]: the
    defaults apply to an omitted or undefined argument. The returned
    validator allocates the promise, evaluates the checker, sets the timer
    and returns the promise. *)
Definition asyncValidator (checker : AbstractControl -> bool)
    (timeout : option Z) (error : js_value)
  : AbstractControl -> event_loop -> nat * event_loop :=
  let timeout := default 0 timeout in
  let error := match error with VUndefined => default_async_error | _ => error end in
  fun c el =>
    let (promise, el) := new_promise el in
    let res := if checker c then VNull else error in
    (promise, setTimeout promise res timeout el).

Definition uniqLogin_error : js_value := VObject [("uniqLogin", VBool true)].

Definition uniqLoginAsyncValidator (expectedValue : string) (timeout : option Z)
  : AbstractControl -> event_loop -> nat * event_loop :=
  asyncValidator (fun c => strict_eq_string (value c) expectedValue)
    timeout uniqLogin_error.

Definition loginIsEmpty_error : js_value := VObject [("loginIsEmpty", VBool true)].

(** [c.controls['login'].value == '' ? {'loginIsEmpty': true} : null];
    reading [value] of a missing control is a [TypeError], and so is a
    comparison whose left side cannot be converted to a primitive. *)
Definition loginIsEmptyGroupValidator `{Host} (c : FormGroup) : completion js_value :=
  match controls c !! "login" with
  | None => Throw (TypeError "Cannot read properties of undefined (reading 'value')")
  | Some login =>
      and_then (loose_eq_empty_string (value login))
        (fun empty => Normal (if empty then loginIsEmpty_error else VNull))
  end.

(** ** The reactive forms runtime exercised by the tests *)

(** Modelled from the spec: the forms runtime ([FormControl], the default
    value accessor of a text input, the [formControl]/[formControlName]
    directives and the [formGroup] directive's submit handling) is code of
    the framework outside the files at hand; only its tests are here. The
    model covers one enabled control bound to one text input, without
    validators contributed by the directive itself, driven by the events
    the tests dispatch: first and later change detection, [input], [blur],
    the form's [submit], [setValue] and [tick]. Each definition names the
    runtime member it stands for. *)
Inductive UpdateOn : Type := on_change | on_blur | on_submit.

Definition ValidatorFn : Type := AbstractControl -> js_value.

Definition AsyncValidatorFn : Type :=
  AbstractControl -> event_loop -> nat * event_loop.

(** Modelled from the spec: validators as passed to the constructor, a
    single function or an array of functions. *)
Inductive raw_validators (F : Type) : Type :=
| RawNone
| RawFn (f : F)
| RawArray (fs : list F).
Arguments RawNone {F}.
Arguments RawFn {F} f.
Arguments RawArray {F} fs.

Inductive emission : Type :=
| valueChanges (v : js_value)
| statusChanges (s : Status).

(** Modelled from the spec: the running subscription to the async
    validators' promises; [merged] tells that the results go through
    [mergeErrors] (validators composed from an array). *)
Record subscription : Type := {
  sources : list nat;
  merged : bool;
  emitEvent : bool
}.

(** Modelled from the spec: the state of a [FormControl]. *)
Record FormControl : Type := {
  base :> AbstractControl;
  _pendingValue : js_value;
  _pendingChange : bool;
  _pendingDirty : bool;
  _pendingTouched : bool;
  updateOn : UpdateOn;
  _rawValidators : raw_validators ValidatorFn;
  _rawAsyncValidators : raw_validators AsyncValidatorFn;
  _asyncValidationSubscription : option subscription;
  emitted : list emission
}.

(** Modelled from the spec: a fixture with the control, the text input's
    [value] property, whether the directive has set the control up, and
    the event loop. *)
Record World : Type := {
  control : FormControl;
  input_value : string;
  registered : bool;
  loop : event_loop
}.

Definition with_base (f : AbstractControl -> AbstractControl) (c : FormControl)
  : FormControl :=
  {| base := f (base c);
     _pendingValue := _pendingValue c;
     _pendingChange := _pendingChange c;
     _pendingDirty := _pendingDirty c;
     _pendingTouched := _pendingTouched c;
     updateOn := updateOn c;
     _rawValidators := _rawValidators c;
     _rawAsyncValidators := _rawAsyncValidators c;
     _asyncValidationSubscription := _asyncValidationSubscription c;
     emitted := emitted c |}.

Definition set_value (v : js_value) (a : AbstractControl) : AbstractControl :=
  {| value := v; errors := errors a; status := status a;
     pristine := pristine a; touched := touched a |}.

Definition set_errors (e : js_value) (a : AbstractControl) : AbstractControl :=
  {| value := value a; errors := e; status := status a;
     pristine := pristine a; touched := touched a |}.

Definition set_status (s : Status) (a : AbstractControl) : AbstractControl :=
  {| value := value a; errors := errors a; status := s;
     pristine := pristine a; touched := touched a |}.

Definition set_pristine (b : bool) (a : AbstractControl) : AbstractControl :=
  {| value := value a; errors := errors a; status := status a;
     pristine := b; touched := touched a |}.

Definition set_touched (b : bool) (a : AbstractControl) : AbstractControl :=
  {| value := value a; errors := errors a; status := status a;
     pristine := pristine a; touched := b |}.

Definition set_pending (v : js_value) (chg dirty tch : bool) (c : FormControl)
  : FormControl :=
  {| base := base c;
     _pendingValue := v;
     _pendingChange := chg;
     _pendingDirty := dirty;
     _pendingTouched := tch;
     updateOn := updateOn c;
     _rawValidators := _rawValidators c;
     _rawAsyncValidators := _rawAsyncValidators c;
     _asyncValidationSubscription := _asyncValidationSubscription c;
     emitted := emitted c |}.

Definition set_validators (vs : raw_validators ValidatorFn)
    (avs : raw_validators AsyncValidatorFn) (c : FormControl) : FormControl :=
  {| base := base c;
     _pendingValue := _pendingValue c;
     _pendingChange := _pendingChange c;
     _pendingDirty := _pendingDirty c;
     _pendingTouched := _pendingTouched c;
     updateOn := updateOn c;
     _rawValidators := vs;
     _rawAsyncValidators := avs;
     _asyncValidationSubscription := _asyncValidationSubscription c;
     emitted := emitted c |}.

Definition set_subscription (s : option subscription) (c : FormControl)
  : FormControl :=
  {| base := base c;
     _pendingValue := _pendingValue c;
     _pendingChange := _pendingChange c;
     _pendingDirty := _pendingDirty c;
     _pendingTouched := _pendingTouched c;
     updateOn := updateOn c;
     _rawValidators := _rawValidators c;
     _rawAsyncValidators := _rawAsyncValidators c;
     _asyncValidationSubscription := s;
     emitted := emitted c |}.

Definition emit (es : list emission) (c : FormControl) : FormControl :=
  {| base := base c;
     _pendingValue := _pendingValue c;
     _pendingChange := _pendingChange c;
     _pendingDirty := _pendingDirty c;
     _pendingTouched := _pendingTouched c;
     updateOn := updateOn c;
     _rawValidators := _rawValidators c;
     _rawAsyncValidators := _rawAsyncValidators c;
     _asyncValidationSubscription := _asyncValidationSubscription c;
     emitted := emitted c ++ es |}.

Definition valid (a : AbstractControl) : bool :=
  match status a with VALID => true | _ => false end.

Definition dirty (a : AbstractControl) : bool := negb (pristine a).

(** *** Validator composition *)

(** Own enumerable properties, as object spread [{...x}] copies them: the
    fields of an object, the indexed elements of an array, the indexed
    characters of a string, nothing for the other primitives. *)
Definition index_key (i : nat) : string := NilZero.string_of_uint (Nat.to_uint i).

Definition own_props (v : js_value) : list (string * js_value) :=
  match v with
  | VObject fields => fields
  | VArray elems => imap (fun i x => (index_key i, x)) elems
  | VString s =>
      imap (fun i ch => (index_key i, VString (String ch EmptyString)))
        (String.list_ascii_of_string s)
  | _ => []
  end.

Fixpoint assign (k : string) (v : js_value) (o : list (string * js_value))
  : list (string * js_value) :=
  match o with
  | [] => [(k, v)]
  | (k', v') :: o' =>
      if String.eqb k' k then (k', v) :: o' else (k', v') :: assign k v o'
  end.

Definition spread (res : list (string * js_value)) (x : js_value)
  : list (string * js_value) :=
  foldl (fun acc kv => assign kv.1 kv.2 acc) res (own_props x).

(** Modelled from the spec: [mergeErrors], the normalisation the test
    comment on validators returning [undefined] refers to: results that are
    not null or undefined are spread into one object, and an object
    without keys becomes [null]. *)
Definition mergeErrors (arrayOfErrors : list js_value) : js_value :=
  let res := foldl (fun res e => if is_nullish e then res else spread res e)
               [] arrayOfErrors in
  match res with
  | [] => VNull
  | _ => VObject res
  end.

(** Modelled from the spec: [Validators.compose]. *)
Definition compose (validators : list ValidatorFn) : option ValidatorFn :=
  match validators with
  | [] => None
  | _ => Some (fun c => mergeErrors (map (fun v => v c) validators))
  end.

(** Modelled from the spec: [coerceToValidator], a single function is kept
    as it is and an array is composed. *)
Definition coerceToValidator (raw : raw_validators ValidatorFn)
  : option ValidatorFn :=
  match raw with
  | RawNone => None
  | RawFn f => Some f
  | RawArray fs => compose fs
  end.

Definition validator (c : FormControl) : option ValidatorFn :=
  coerceToValidator (_rawValidators c).

(** Modelled from the spec: [_runValidator]. *)
Definition _runValidator (c : FormControl) : js_value :=
  match validator c with
  | Some v => v (base c)
  | None => VNull
  end.

(** Modelled from the spec: [_calculateStatus] of an enabled control
    without children. *)
Definition _calculateStatus (a : AbstractControl) : Status :=
  if truthy (errors a) then INVALID else VALID.

(** The async validators that run, and whether their results are merged. *)
Definition async_validators (c : FormControl) : list AsyncValidatorFn * bool :=
  match _rawAsyncValidators c with
  | RawNone => ([], false)
  | RawFn f => ([f], false)
  | RawArray fs => (fs, true)
  end.

(** Each async validator is called with the control, in order. *)
Fixpoint call_async (fs : list AsyncValidatorFn) (a : AbstractControl)
    (el : event_loop) : list nat * event_loop :=
  match fs with
  | [] => ([], el)
  | f :: fs' =>
      let (p, el1) := f a el in
      let (ps, el2) := call_async fs' a el1 in
      (p :: ps, el2)
  end.

(** Modelled from the spec: [_runAsyncValidator]. The status is PENDING
    before the validators are called. *)
Definition _runAsyncValidator (emitEvent : bool) (c : FormControl)
    (el : event_loop) : FormControl * event_loop :=
  match async_validators c with
  | ([], _) => (c, el)
  | (fs, m) =>
      let c1 := with_base (set_status PENDING) c in
      let (ps, el1) := call_async fs (base c1) el in
      (set_subscription
         (Some {| sources := ps; merged := m; emitEvent := emitEvent |}) c1,
       el1)
  end.

(** Modelled from the spec: [updateValueAndValidity] of an enabled control:
    the status starts from VALID ([_setInitialStatus]), the running async
    validation is cancelled, the sync validator runs, the
    async validators run only when the sync result is valid, and the two
    observables emit unless [emitEvent] is false. *)
Definition updateValueAndValidity (emitEvent : bool) (c : FormControl)
    (el : event_loop) : FormControl * event_loop :=
  let c0 := with_base (set_status VALID) c in
  let c1 := set_subscription None c0 in
  let c2 := with_base (set_errors (_runValidator c1)) c1 in
  let c3 := with_base (set_status (_calculateStatus (base c2))) c2 in
  let (c4, el1) :=
    match status c3 with
    | VALID | PENDING => _runAsyncValidator emitEvent c3 el
    | INVALID => (c3, el)
    end in
  (if emitEvent
   then emit [valueChanges (value c4); statusChanges (status c4)] c4
   else c4,
   el1).

(** Modelled from the spec: [setErrors], as the async validation calls it
    when its promises have resolved. *)
Definition setErrors (e : js_value) (emitEvent : bool) (c : FormControl)
  : FormControl :=
  let c1 := with_base (set_errors e) c in
  let c2 := with_base (set_status (_calculateStatus (base c1))) c1 in
  if emitEvent then emit [statusChanges (status c2)] c2 else c2.

Definition markAsDirty (c : FormControl) : FormControl :=
  with_base (set_pristine false) c.

Definition markAsTouched (c : FormControl) : FormControl :=
  with_base (set_touched true) c.

(** *** The control, its directive and the text input *)

Section Runtime.
Context `{Host}.

(** What the element holds after [x] was assigned to it: when the
    conversion to a string throws, the element keeps its value. *)
Definition written (x : js_value) (old : string) : string :=
  match element_string x with
  | Normal s => s
  | Throw _ => old
  end.

(** Modelled from the spec: [DefaultValueAccessor.writeValue]; null and
    undefined are written as the empty string, and the element's [value]
    property holds the sanitized string of what is written. The
    operations on the fixture are total: the TypeError with which the
    framework's call ends when the conversion throws is left out, and the
    statements about what the element shows take values that convert. *)
Definition writeValue (v : js_value) (w : World) : World :=
  {| control := control w;
     input_value := written v (input_value w);
     registered := registered w;
     loop := loop w |}.

Definition with_control (f : FormControl -> FormControl) (w : World) : World :=
  {| control := f (control w);
     input_value := input_value w;
     registered := registered w;
     loop := loop w |}.

Definition run_control (f : FormControl -> event_loop -> FormControl * event_loop)
    (w : World) : World :=
  let (c, el) := f (control w) (loop w) in
  {| control := c;
     input_value := input_value w;
     registered := registered w;
     loop := el |}.

(** Modelled from the spec: [FormControl.setValue]. The view is written
    when a directive has registered its change callback and
    [emitModelToViewChange] is not false. *)
Definition setValue (v : js_value) (emitModelToViewChange emitEvent : bool)
    (w : World) : World :=
  let w1 := with_control
              (fun c => set_pending v (_pendingChange c) (_pendingDirty c)
                          (_pendingTouched c) (with_base (set_value v) c)) w in
  let w2 := if registered w1 && emitModelToViewChange
            then writeValue v w1 else w1 in
  run_control (updateValueAndValidity emitEvent) w2.

(** Modelled from the spec: [updateControl], the view-to-model update:
    dirty first, then the pending value, then no change is pending. *)
Definition updateControl (w : World) : World :=
  let w1 := if _pendingDirty (control w)
            then with_control markAsDirty w else w in
  let w2 := setValue (_pendingValue (control w1)) false true w1 in
  with_control
    (fun c => set_pending (_pendingValue c) false (_pendingDirty c)
                (_pendingTouched c) c) w2.

(** The test sets the element's [value] and dispatches [input]. The
    accessor's change callback (registered by the directive) records the
    pending value and updates the control at once only for
    [updateOn: 'change']. *)
Definition dispatch_input (s : string) (w : World) : World :=
  let w1 := {| control := control w; input_value := s;
               registered := registered w; loop := loop w |} in
  if registered w1 then
    let w2 := with_control
                (fun c => set_pending (VString s) true true (_pendingTouched c) c)
                w1 in
    match updateOn (control w2) with
    | on_change => updateControl w2
    | _ => w2
    end
  else w1.

(** The accessor's touched callback on [blur]. *)
Definition dispatch_blur (w : World) : World :=
  if registered w then
    let w1 := with_control
                (fun c => set_pending (_pendingValue c) (_pendingChange c)
                            (_pendingDirty c) true c) w in
    let w2 := match updateOn (control w1) with
              | on_blur => if _pendingChange (control w1)
                           then updateControl w1 else w1
              | _ => w1
              end in
    match updateOn (control w2) with
    | on_submit => w2
    | _ => with_control markAsTouched w2
    end
  else w.

(** Modelled from the spec: [_syncPendingControls] of the control, which
    the form's submit handler calls before it clears the pending change. *)
Definition _syncPendingControls (w : World) : World :=
  match updateOn (control w) with
  | on_submit =>
      let w1 := if _pendingDirty (control w)
                then with_control markAsDirty w else w in
      let w2 := if _pendingTouched (control w1)
                then with_control markAsTouched w1 else w1 in
      if _pendingChange (control w2)
      then setValue (_pendingValue (control w2)) false true w2
      else w2
  | _ => w
  end.

(** The form's [submit] event. *)
Definition dispatch_submit (w : World) : World :=
  if registered w then
    let w1 := _syncPendingControls w in
    match updateOn (control w1) with
    | on_submit =>
        if _pendingChange (control w1)
        then with_control
               (fun c => set_pending (_pendingValue c) false (_pendingDirty c)
                           (_pendingTouched c) c) w1
        else w1
    | _ => w1
    end
  else w.

(** Modelled from the spec: [setUpValidators] for a directive without
    validators of its own: a single function is wrapped in an array, so
    that it always runs through [Validators.compose]. *)
Definition wrap_single {F : Type} (raw : raw_validators F) : raw_validators F :=
  match raw with
  | RawFn f => RawArray [f]
  | _ => raw
  end.

(** Modelled from the spec: what the directive does on the first change
    detection ([setUpControl], then [updateValueAndValidity] without
    events). *)
Definition setUpControl (w : World) : World :=
  let w1 := with_control
              (fun c => set_validators (wrap_single (_rawValidators c))
                          (wrap_single (_rawAsyncValidators c)) c) w in
  let w2 := writeValue (value (control w1)) w1 in
  let w3 := {| control := control w2; input_value := input_value w2;
               registered := true; loop := loop w2 |} in
  run_control (updateValueAndValidity false) w3.

(** [fixture.detectChanges()] *)
Definition detectChanges (w : World) : World :=
  if registered w then w else setUpControl w.

(** Modelled from the spec: the fields of a [FormControl] holding [v],
    before its validity is first computed, in a fixture whose input
    element is still empty. *)
Definition initial_control (v : js_value)
    (validators : raw_validators ValidatorFn)
    (asyncValidators : raw_validators AsyncValidatorFn)
    (upd : UpdateOn) (el : event_loop) : World :=
  {| control := {| base := {| value := v; errors := VUndefined; status := VALID;
                              pristine := true; touched := false |};
                   _pendingValue := v;
                   _pendingChange := false;
                   _pendingDirty := false;
                   _pendingTouched := false;
                   updateOn := upd;
                   _rawValidators := validators;
                   _rawAsyncValidators := asyncValidators;
                   _asyncValidationSubscription := None;
                   emitted := [] |};
     input_value := ""; registered := false; loop := el |}.

(** Modelled from the spec: the last statement of the constructor,
    [updateValueAndValidity], which emits only when the control has an
    async validator. *)
Definition first_validity (w : World) : World :=
  let emitEvent := match _rawAsyncValidators (control w) with
                   | RawNone => false
                   | RawArray [] => false
                   | _ => true
                   end in
  run_control (updateValueAndValidity emitEvent) w.

(** Modelled from the spec: the enabled control [new FormControl(v, ...)]
    gives for a form state [v] that is not boxed. *)
Definition FormControl_with (v : js_value)
    (validators : raw_validators ValidatorFn)
    (asyncValidators : raw_validators AsyncValidatorFn)
    (upd : UpdateOn) (el : event_loop) : World :=
  first_validity (initial_control v validators asyncValidators upd el).





(** Modelled from the spec: what the constructor gives: an enabled
    control, which the model of the runtime covers, or a disabled one
    holding a value. A disabled control has the status DISABLED and the
    errors null, and neither its creation nor a change detection runs its
    validators. *)
Inductive created : Type :=
| Enabled (w : World)
| Disabled (v : js_value).





Definition created_errors (r : created) : js_value :=
  match r with
  | Enabled w => errors (control w)
  | Disabled _ => VNull
  end.

(** *** Async results *)

Definition fulfilled (el : event_loop) (p : nat) : option js_value :=
  match promises el !! p with
  | Some (Fulfilled v) => Some v
  | _ => None
  end.

(** The subscriber of the async validation: once every promise of the
    subscription is fulfilled, the errors are set and the subscription is
    over. *)
Definition deliver (w : World) : World :=
  match _asyncValidationSubscription (control w) with
  | Some sub =>
      match mapM (fulfilled (loop w)) (sources sub) with
      | Some results =>
          let e := if merged sub then mergeErrors results
                   else default VUndefined (head results) in
          with_control
            (fun c => setErrors e (emitEvent sub) (set_subscription None c)) w
      | None => w
      end
  | None => w
  end.

Definition with_loop (f : event_loop -> event_loop) (w : World) : World :=
  {| control := control w;
     input_value := input_value w;
     registered := registered w;
     loop := f (loop w) |}.

(** [tick(ms)] in the fixture: each due timer runs and the subscriber is
    served after it. *)
Definition world_tick (ms : Z) (w : World) : World :=
  let limit := now (loop w) + Z.max 0 ms in
  let start :=
    with_loop (fun el => {| now := now el; next_promise := next_promise el;
                            promises := promises el;
                            timers := later_timers limit el |}) (deliver w) in
  let w' := foldl (fun acc t => deliver (with_loop (run_timer t) acc))
              start (due_timers limit (loop w)) in
  with_loop (fun el => {| now := limit; next_promise := next_promise el;
                          promises := promises el; timers := timers el |}) w'.

End Runtime.

(** *** Directive misuse *)

(** Modelled from the spec: the control containers a [formControlName]
    can find as its parent, and the parent check the directive makes when
    it is first set up. The messages are the ones the tests expect. *)
Inductive ControlContainer : Type :=
| FormGroupDirective
| FormGroupName
| FormArrayName
| NgForm
| NgModelGroup.

Definition controlParentException : js_error :=
  Error "formControlName must be used with a parent formGroup directive.".

Definition ngModelGroupException : js_error :=
  Error "formControlName cannot be used with an ngModelGroup parent.".

Definition missingFormException : js_error :=
  Error "formGroup expects a FormGroup instance. Please pass one in.".

(** Modelled from the spec: what the engine throws when the directive
    calls a method of [FormGroup] on a value that has none (here in V8's wording; the first
    such call of the directive's [ngOnChanges] is [_updateTreeValidity]). *)
Definition notAFormGroupError : js_error :=
  TypeError "this.form._updateTreeValidity is not a function".

(** Modelled from the spec: [FormControlName._checkParentType]. *)
Definition _checkParentType (parent : option ControlContainer) : completion unit :=
  match parent with
  | Some NgModelGroup => Throw ngModelGroupException
  | Some FormGroupDirective | Some FormGroupName | Some FormArrayName => Normal tt
  | Some NgForm | None => Throw controlParentException
  end.

(** Modelled from the spec: what the [form] input of the [formGroup]
    directive is bound to: a [FormGroup], or some other value (undefined
    when the component's property was never set). *)
Inductive form_input : Type :=
| form_instance (g : FormGroup)
| form_value (v : js_value).

(** Modelled from the spec: [FormGroupDirective._checkFormPresent], which
    is [if (!this.form) throw ...]: only a falsy value is taken as a
    missing form. *)
Definition _checkFormPresent (form : form_input) : completion unit :=
  match form with
  | form_instance _ => Normal tt
  | form_value v => if truthy v then Normal tt else Throw missingFormException
  end.

(** Modelled from the spec: [FormGroupDirective.ngOnChanges]: after the
    check the directive uses the form as a [FormGroup], which fails on a
    value that is none. *)
Definition FormGroupDirective_ngOnChanges (form : form_input) : completion unit :=
  and_then (_checkFormPresent form)
    (fun _ => match form with
              | form_instance _ => Normal tt
              | form_value _ => Throw notAFormGroupError
              end).

(** The templates of the error tests: an input with [formControlName]
    under the given parent, or a [formGroup] directive bound to [form]. *)
Inductive template : Type :=
| formControlName_in (parent : option ControlContainer)
| formGroup_bound_to (form : form_input).

(** The first change detection of such a template. *)
Definition first_detectChanges (t : template) : completion unit :=
  match t with
  | formControlName_in parent => _checkParentType parent
  | formGroup_bound_to form => FormGroupDirective_ngOnChanges form
  end.

(** [new RegExp(re)] tested on a string, for patterns made of literal
    characters and the wildcard [.]. *)
Fixpoint match_here (re s : string) : bool :=
  match re, s with
  | EmptyString, _ => true
  | String _ _, EmptyString => false
  | String r re', String c s' =>
      (Ascii.eqb r "."%char || Ascii.eqb r c) && match_here re' s'
  end.

Fixpoint regexp_test (re s : string) : bool :=
  match_here re s ||
  match s with
  | EmptyString => false
  | String _ s' => regexp_test re s'
  end.

(** [expect(f).toThrowError(new RegExp(re))] *)
Definition throws_matching {A : Type} (re : string) (r : completion A) : bool :=
  match r with
  | Throw (Error msg) | Throw (TypeError msg) => regexp_test re msg
  | Normal _ => false
  end.

(** ** The documented [checkAndUpdateView] *)

Inductive hook : Type :=
| OnChanges
| OnInit
| DoCheck
| AfterContentInit
| AfterContentChecked
| AfterViewInit
| AfterViewChecked.

(** The hooks the notes mark as called only during the first check. *)
Definition first_check_only (h : hook) : bool :=
  match h with
  | OnInit | AfterContentInit | AfterViewInit => true
  | _ => false
  end.

(** [checks] counts how often the view has been checked, which tells a
    first check from a later one. *)
Record ViewState : Type := {
  firstCheck : bool;
  checks : nat;
  checksEnabled : bool
}.

Record child_of (V : Type) : Type := {
  cid : nat;
  bindingsChanged : bool;
  componentView : option V
}.
Arguments cid {V} c.
Arguments bindingsChanged {V} c.
Arguments componentView {V} c.

(** A view: its state, whether it uses the OnPush strategy, whether
    properties of its component instance changed, its child components and
    directives, and its embedded views. *)
Inductive view : Type :=
| View (state : ViewState) (onPush : bool) (propertiesChanged : bool)
       (children : list (child_of view)) (embedded : list view).

Definition state_of (v : view) : ViewState :=
  match v with View st _ _ _ _ => st end.

Definition onPush_of (v : view) : bool :=
  match v with View _ p _ _ _ => p end.

(** What one pass does, in order; the passes over embedded and child views
    are nested. *)
Inductive event : Type :=
| SetFirstCheck (b : bool)
| UpdateInputs (child : nat)
| UpdateChildViewState (child : nat)
| CheckEmbeddedView (sub : list event)
| CallHook (child : nat) (h : hook)
| UpdateContentChildren (child : nat)
| UpdateDomInterpolations
| CheckChildView (child : nat) (sub : list event)
| UpdateViewChildren
| DisableChecks.

(** Step 3 for a child view: an OnPush view whose inputs changed has its
    checks enabled again. *)
Definition child_checks_enabled (changed : bool) (v : view) : bool :=
  checksEnabled (state_of v) || (onPush_of v && changed).

(** Steps 2 and 3, per child. *)
Definition update_inputs (c : child_of view) : list event :=
  [UpdateInputs (cid c); UpdateChildViewState (cid c)].

(** Steps 5 and 6, per child: OnChanges if bindings changed, OnInit only
    during the first check, ngDoCheck always. *)
Definition input_hooks (first : bool) (c : child_of view) : list event :=
  (if bindingsChanged c then [CallHook (cid c) OnChanges] else []) ++
  (if first then [CallHook (cid c) OnInit] else []) ++
  [CallHook (cid c) DoCheck].

(** Steps 7 and 8, per child. *)
Definition content_hooks (first : bool) (c : child_of view) : list event :=
  [UpdateContentChildren (cid c)] ++
  (if first then [CallHook (cid c) AfterContentInit] else []) ++
  [CallHook (cid c) AfterContentChecked].

(** Step 12, per child. *)
Definition view_hooks (first : bool) (c : child_of view) : list event :=
  (if first then [CallHook (cid c) AfterViewInit] else []) ++
  [CallHook (cid c) AfterViewChecked].

(** Step 4: the pass over each embedded view. *)
Definition check_embedded (check : view -> view * list event)
  : list view -> list view * list event :=
  fix each (l : list view) : list view * list event :=
    match l with
    | [] => ([], [])
    | e :: l' =>
        let (e', t) := check e in
        let (l'', ts) := each l' in
        (e' :: l'', CheckEmbeddedView t :: ts)
    end.

(** Step 10: the pass over the view of each child component, while its
    checks are enabled; afterwards the child's bindings are up to date. *)
Definition check_children (check : view -> view * list event)
  : list (child_of view) -> list (child_of view) * list event :=
  fix each (l : list (child_of view)) : list (child_of view) * list event :=
    match l with
    | [] => ([], [])
    | c :: l' =>
        let (cv, t) :=
          match componentView c with
          | Some u =>
              if child_checks_enabled (bindingsChanged c) u
              then let (u', t) := check u in
                   (Some u', [CheckChildView (cid c) t])
              else (Some u, [])
          | None => (None, [])
          end in
        let (l'', ts) := each l' in
        ({| cid := cid c; bindingsChanged := false; componentView := cv |}
           :: l'', (t ++ ts)%list)
    end.

(** The thirteen steps of the notes, in their order. Steps 3 and 13 are
    read as the OnPush strategy: such a view has its checks disabled after
    a pass and enabled again when its inputs change. *)
Fixpoint checkAndUpdateView (v : view) : view * list event :=
  match v with
  | View st push changed children embedded =>
      (* 1 *)
      let first := Nat.eqb (checks st) 0 in
      (* 2, 3 *)
      let t23 := flat_map update_inputs children in
      (* 4 *)
      let emb := check_embedded checkAndUpdateView embedded in
      (* 5, 6 *)
      let t56 := flat_map (input_hooks first) children in
      (* 7, 8 *)
      let t78 := flat_map (content_hooks first) children in
      (* 9 *)
      let t9 := if changed then [UpdateDomInterpolations] else [] in
      (* 10 *)
      let chs := check_children checkAndUpdateView children in
      (* 11 *)
      let t11 := [UpdateViewChildren] in
      (* 12 *)
      let t12 := flat_map (view_hooks first) children in
      (* 13 *)
      let st' := {| firstCheck := first;
                    checks := S (checks st);
                    checksEnabled := if push then false else checksEnabled st |} in
      (View st' push false chs.1 emb.1,
       ([SetFirstCheck first] ++ t23 ++ emb.2 ++ t56 ++ t78 ++ t9 ++ chs.2 ++
        t11 ++ t12 ++ (if push then [DisableChecks] else []))%list)
  end.

(** The hooks a pass calls on the child components of the view itself. *)
Definition hooks_called (t : list event) : list hook :=
  flat_map (fun e => match e with CallHook _ h => [h] | _ => [] end) t.

(** The check after [n] earlier ones. *)
Fixpoint nth_check (n : nat) (v : view) : view * list event :=
  match n with
  | O => checkAndUpdateView v
  | S n' => nth_check n' (checkAndUpdateView v).1
  end.

(** ** The component-styles example *)

(** The object literal passed to [@Component]; the [encapsulation] entry
    is inside a comment and not part of it. *)
Definition QuestSummaryComponent_metadata : list (string * js_value) :=
  [("selector", VString "app-quest-summary");
   ("templateUrl", VString "./quest-summary.component.html");
   ("styleUrls", VArray [VString "./quest-summary.component.css"])].

(** A class member: a field, a method or the constructor. *)
Inductive member : Type :=
| Field (name : string)
| Method (name : string)
| Constructor.

Record class_declaration : Type := {
  class_name : string;
  decorator : string * list (string * js_value);
  members : list member
}.

(** [@Component({...}) export class QuestSummaryComponent { }] *)
Definition QuestSummaryComponent : class_declaration :=
  {| class_name := "QuestSummaryComponent";
     decorator := ("Component", QuestSummaryComponent_metadata);
     members := [] |}.

(** ** Values used by the closed examples *)

(** Modelled from the spec: [Validators.required], which the tests attach
    to their controls. A value is missing when it is null or undefined or
    when its [length] is [0]: the empty string, the empty array, and an
    object whose own property [length] is the number 0. *)
Definition is_zero (v : js_value) : bool :=
  match v with
  | VNumber n => PrimFloat.eqb n 0%float
  | _ => false
  end.

Definition isEmptyInputValue (v : js_value) : bool :=
  match v with
  | VUndefined | VNull => true
  | VString s => String.eqb s ""
  | VArray elems => Nat.eqb (length elems) 0
  | VObject fields =>
      match own_property "length" fields with
      | Some l => is_zero l
      | None => false
      end
  | _ => false
  end.

Definition required : ValidatorFn :=
  fun c => if isEmptyInputValue (value c)
           then VObject [("required", VBool true)] else VNull.

(** A host for the closed examples, none of which prints a number. *)
Definition example_host : Host :=
  {| NumberToString := fun _ => "NaN";
     NumberToString_nonempty := fun _ => ltac:(discriminate) |}.

Definition empty_loop : event_loop :=
  {| now := 0; next_promise := 0%nat; promises := ∅; timers := [] |}.

(** A control holding [v] that was never touched. *)
Definition untouched_control (v : js_value) : AbstractControl :=
  {| value := v; errors := VNull; status := VALID;
     pristine := true; touched := false |}.

(** A group with a single control, [login], holding [v]. *)
Definition group_with_login (v : js_value) : FormGroup :=
  {| controls := {[ "login" := untouched_control v ]} |}.

(** ** Predicates of the statements *)

(** Values whose [ToString] is the empty string. *)
Inductive empty_string_like : js_value -> Prop :=
| esl_string : empty_string_like (VString "")
| esl_empty_array : empty_string_like (VArray [])
| esl_nullish_element x :
    is_nullish x = true -> empty_string_like (VArray [x])
| esl_nested x :
    empty_string_like x -> empty_string_like (VArray [x]).

(** Values that cannot be converted to a primitive: an object with an own
    property [toString], and an array that holds such a value. *)
Inductive unconvertible : js_value -> Prop :=
| unc_object fields :
    has_own "toString" fields = true -> unconvertible (VObject fields)
| unc_array elems x :
    x ∈ elems -> unconvertible x -> unconvertible (VArray elems).

(** Values that are loosely equal to the empty string. *)
Inductive loosely_empty : js_value -> Prop :=
| le_string : loosely_empty (VString "")
| le_zero n : PrimFloat.eqb n 0%float = true -> loosely_empty (VNumber n)
| le_false : loosely_empty (VBool false)
| le_array elems :
    empty_string_like (VArray elems) -> loosely_empty (VArray elems).

(** No timer of the loop resolves a promise that is yet to be created. *)
Definition timers_allocated (el : event_loop) : Prop :=
  Forall (fun t => (target t < next_promise el)%nat) (timers el).

(** Several [tick]s in a row, and the time they let pass. *)
Definition ticks (mss : list Z) (el : event_loop) : event_loop :=
  foldl (fun acc ms => tick ms acc) el mss.

Definition elapsed (mss : list Z) : Z :=
  foldr (fun ms acc => Z.max 0 ms + acc) 0 mss.

(** The promise [p] is pending and waits for its timer, due at [D] with
    the result [res]. *)
Definition armed (p : nat) (D : Z) (res : js_value) (el : event_loop) : Prop :=
  promises el !! p = Some Pending /\
  (exists t, t ∈ timers el /\ target t = p) /\
  (forall t, t ∈ timers el -> target t = p -> due t = D /\ result t = res).

(** The control as the sync validator sees it during an update: the status
    has been set to VALID and the errors are still the old ones. *)
Definition seen_by_validator (a : AbstractControl) : AbstractControl :=
  set_status VALID a.

(** The errors the sync validator of [c] reports for the control [a]. *)
Definition validation_result (c : FormControl) (a : AbstractControl) : js_value :=
  match validator c with
  | Some f => f (seen_by_validator a)
  | None => VNull
  end.

(** The status an update leaves, given the errors of the sync validator. *)
Definition status_after_update (c : FormControl) (e : js_value) : Status :=
  if truthy e then INVALID
  else match (async_validators c).1 with
       | [] => VALID
       | _ => PENDING
       end.

(** Several [input] events in a row, and several [tick]s of the fixture. *)
Definition inputs `{Host} (ss : list string) (w : World) : World :=
  foldl (fun acc s => dispatch_input s acc) w ss.

Definition world_ticks (mss : list Z) (w : World) : World :=
  foldl (fun acc ms => world_tick ms acc) w mss.



(** The fixtures of the closed examples: the control of the blur tests
    ([new FormControl('', {validators: Validators.required, updateOn:
    'blur'})]), a control created without a value (which holds null), and
    the control of the test on async and sync validators ([''], required,
    [uniqLoginAsyncValidator('expected', 100)]), each after its first
    change detection; the last one after [tick()] too. *)
Definition blur_fixture : World :=
  @detectChanges example_host
    (FormControl_with (VString "") (RawFn required) RawNone on_blur empty_loop).


Definition async_fixture : World :=
  world_tick 0
    (@detectChanges example_host
       (FormControl_with (VString "") (RawFn required)
          (RawFn (uniqLoginAsyncValidator "expected" (Some 100)))
          on_change empty_loop)).



(** The pending flags a [submit] applies first. *)
Definition pending_flags_applied (w : World) : World :=
  let w1 := if _pendingDirty (control w)
            then with_control markAsDirty w else w in
  if _pendingTouched (control w1) then with_control markAsTouched w1 else w1.

(** ** Further definitions of the statements *)

(** Every promise still to be created is unknown to the loop, and no timer
    waits for one. *)
Definition loop_wf (el : event_loop) : Prop :=
  timers_allocated el /\
  forall p, (next_promise el <= p)%nat -> promises el !! p = None.

(** What the promise of [asyncValidator(checker, timeout, error)(c)] is
    resolved with. *)
Definition resolved_with (checker : AbstractControl -> bool) (error : js_value)
    (c : AbstractControl) : js_value :=
  if checker c then VNull
  else match error with VUndefined => default_async_error | _ => error end.

(** The directive [UniqLoginValidator]: its input [expected], bound from the
    string attribute of the template, and its [validate], which calls
    [uniqLoginAsyncValidator(this.expected)] without a timeout. *)
Record UniqLoginValidator : Type := {
  expected : string
}.

Definition UniqLoginValidator_validate (self : UniqLoginValidator)
  : AbstractControl -> event_loop -> nat * event_loop :=
  uniqLoginAsyncValidator (expected self) None.

(** The control once its async validation, subscribed with [sub], has
    delivered [results]. *)
Definition delivered (sub : subscription) (results : list js_value)
    (c : FormControl) : FormControl :=
  setErrors (if merged sub then mergeErrors results
             else default VUndefined (head results))
    (emitEvent sub) (set_subscription None c).

(** The control as the async validators see it during an update that
    found the errors [e]: the status is PENDING. *)
Definition seen_by_async_validator (e : js_value) (a : AbstractControl)
  : AbstractControl :=
  set_status PENDING (set_errors e (set_status VALID a)).

(** The events of the input element. *)
Inductive input_event : Type :=
| input_of (s : string)
| blur_of.

Definition dispatch `{Host} (ev : input_event) (w : World) : World :=
  match ev with
  | input_of s => dispatch_input s w
  | blur_of => dispatch_blur w
  end.

Definition dispatch_all `{Host} (evs : list input_event) (w : World) : World :=
  foldl (fun acc ev => dispatch ev acc) w evs.

(** The fixture of the test on a control that combines a sync and an async
    validator, after its first change detection. *)
Definition combined_fixture : World :=
  @detectChanges example_host
    (FormControl_with (VString "") (RawFn required)
       (RawFn (uniqLoginAsyncValidator "good" None)) on_change empty_loop).

(** The fixture of the submit tests: [''], required, [updateOn: 'submit'],
    after its first change detection. *)
Definition submit_fixture : World :=
  @detectChanges example_host
    (FormControl_with (VString "") (RawFn required) RawNone on_submit empty_loop).

(** The string of the last [input] event of a series, if it has one. *)
Definition last_input (evs : list input_event) : option string :=
  foldl (fun acc ev => match ev with input_of s => Some s | blur_of => acc end)
        None evs.


(** ** What a test does with a bound control *)











(** * Theorems *)

(** ** JavaScript values *)

Lemma js_value_nested_ind (P : js_value -> Prop) :
  P VUndefined -> P VNull -> (forall b, P (VBool b)) ->
  (forall n, P (VNumber n)) -> (forall s, P (VString s)) ->
  (forall elems, Forall P elems -> P (VArray elems)) ->
  (forall fields, Forall (fun kv => P kv.2) fields -> P (VObject fields)) ->
  forall v, P v.
Proof.
  intros Hu Hn Hb Hnum Hs Ha Ho.
  fix IH 1.
  intros [ | | b | n | s | elems | fields ].
  - exact Hu.
  - exact Hn.
  - apply Hb.
  - apply Hnum.
  - apply Hs.
  - apply Ha. induction elems as [|x elems IHl]; constructor.
    + apply IH.
    + exact IHl.
  - apply Ho. induction fields as [|[k x] fields IHl]; constructor.
    + apply IH.
    + exact IHl.
Qed.

Section ValueFacts.
Context `{Host}.

Lemma ToString_VArray (elems : list js_value) :
  ToString (VArray elems)
  = and_then (strings_of elems) (fun parts => Normal (join_comma parts)).
Proof.
  reflexivity.
Qed.

Lemma append_comma_nonempty (p q : string) : (p ++ "," ++ q)%string <> "".
Proof. destruct p; discriminate. Qed.

Lemma join_comma_empty (parts : list string) :
  join_comma parts = "" <-> parts = [] \/ parts = [""].
Proof.
  destruct parts as [|p [|q rest]]; simpl.
  - split; auto.
  - split.
    + intros ->. auto.
    + intros [Hnil|Hone]; [discriminate | congruence].
  - split.
    + intros Habs. exfalso. exact (append_comma_nonempty _ _ Habs).
    + intros [Hnil|Hone]; discriminate.
Qed.

Lemma unconvertible_not_nullish (x : js_value) :
  unconvertible x -> is_nullish x = false.
Proof. destruct 1; reflexivity. Qed.

(** [join] throws what the conversion of its first failing element
    throws. *)
Lemma strings_of_throw_elim (l : list js_value) (e : js_error) :
  strings_of l = Throw e ->
  exists x, x ∈ l /\ is_nullish x = false /\ ToString x = Throw e.
Proof.
  induction l as [|x l IH]; [discriminate|].
  cbn [strings_of]. destruct (is_nullish x) eqn:Hnullish.
  - destruct (strings_of l) as [ps|e']; [discriminate|].
    intros Heq. destruct (IH Heq) as (y & Hin & Hy).
    exists y. split; [right; exact Hin | exact Hy].
  - destruct (ToString x) as [p|e'] eqn:Hx.
    + destruct (strings_of l) as [ps|e'']; [discriminate|].
      intros Heq. destruct (IH Heq) as (y & Hin & Hy).
      exists y. split; [right; exact Hin | exact Hy].
    + intros Heq. injection Heq as <-.
      exists x. split; [left|split; [exact Hnullish|exact Hx]].
Qed.

Lemma strings_of_throw_intro (l : list js_value) (x : js_value) (e : js_error) :
  x ∈ l -> is_nullish x = false -> ToString x = Throw e ->
  exists e', strings_of l = Throw e'.
Proof.
  intros Hin Hnullish Hx. induction l as [|y l IH]; [inversion Hin|].
  apply elem_of_cons in Hin as [<-|Hin].
  - cbn [strings_of]. rewrite Hnullish, Hx. eauto.
  - cbn [strings_of].
    destruct (if is_nullish y then Normal "" else ToString y) as [p|e'];
      [|eauto].
    destruct (IH Hin) as [e' ->]. eauto.
Qed.

(** The only error of a conversion. *)
Lemma ToString_error (v : js_value) (e : js_error) :
  ToString v = Throw e -> e = cannot_convert.
Proof.
  revert e.
  induction v as [ | | b | n | s | elems IH | fields _ ] using js_value_nested_ind;
    intros e; try discriminate.
  - destruct b; discriminate.
  - rewrite ToString_VArray.
    destruct (strings_of elems) as [ps|e'] eqn:Hparts; [discriminate|].
    intros Heq. apply strings_of_throw_elim in Hparts as (x & Hin & _ & Hx).
    rewrite Forall_forall in IH. cbn [and_then] in Heq.
    injection Heq as <-. exact (IH x Hin e' Hx).
  - cbn [ToString]. destruct (has_own "toString" fields); [|discriminate].
    congruence.
Qed.

(** A conversion throws exactly on the values that cannot be converted. *)
Lemma ToString_throws (v : js_value) :
  ToString v = Throw cannot_convert <-> unconvertible v.
Proof.
  induction v as [ | | b | n | s | elems IH | fields _ ] using js_value_nested_ind;
    try (split; [discriminate | inversion 1]).
  - split; [destruct b; discriminate | inversion 1].
  - rewrite Forall_forall in IH. rewrite ToString_VArray. split.
    + destruct (strings_of elems) as [ps|e'] eqn:Hparts; [discriminate|].
      intros Heq. cbn [and_then] in Heq. injection Heq as ->.
      apply strings_of_throw_elim in Hparts as (x & Hin & _ & Hx).
      apply (unc_array elems x Hin). apply IH; assumption.
    + inversion 1 as [|? x Hin Hx]; subst.
      destruct (strings_of_throw_intro elems x cannot_convert Hin
                  (unconvertible_not_nullish x Hx)) as [e' Hthrow].
      { apply IH; assumption. }
      assert (He' : e' = cannot_convert).
      { apply (ToString_error (VArray elems)).
        rewrite ToString_VArray, Hthrow. reflexivity. }
      rewrite Hthrow, He'. reflexivity.
  - cbn [ToString]. split.
    + destruct (has_own "toString" fields) eqn:Hown; [|discriminate].
      intros _. constructor. exact Hown.
    + inversion 1 as [? Hown|]; subst. rewrite Hown. reflexivity.
Qed.

Lemma ToString_total (v : js_value) :
  ~ unconvertible v -> exists s, ToString v = Normal s.
Proof.
  intros Hconv. destruct (ToString v) as [s|e] eqn:Hv; [eauto|].
  exfalso. apply Hconv. apply ToString_throws.
  rewrite Hv, (ToString_error v e Hv). reflexivity.
Qed.

Lemma strings_of_nil (elems : list js_value) :
  strings_of elems = Normal [] <-> elems = [].
Proof.
  destruct elems as [|x elems]; [split; reflexivity|].
  split; [|discriminate]. cbn [strings_of].
  destruct (if is_nullish x then Normal "" else ToString x); [|discriminate].
  destruct (strings_of elems); discriminate.
Qed.

Lemma strings_of_single (elems : list js_value) (p : string) :
  strings_of elems = Normal [p] <->
  exists x, elems = [x] /\
            (if is_nullish x then Normal "" else ToString x) = Normal p.
Proof.
  destruct elems as [|x elems].
  - split; [discriminate|]. intros (x & Habs & _). discriminate.
  - cbn [strings_of]. split.
    + destruct (if is_nullish x then Normal "" else ToString x) as [q|e] eqn:Hq;
        [|discriminate].
      destruct (strings_of elems) as [ps|e] eqn:Hrest; [|discriminate].
      intros Heq. injection Heq as -> ->.
      apply strings_of_nil in Hrest as ->.
      exists x. split; [reflexivity | exact Hq].
    + intros (y & Heq & Hy). injection Heq as -> ->. rewrite Hy. reflexivity.
Qed.

Lemma ToString_empty (v : js_value) :
  ToString v = Normal "" <-> empty_string_like v.
Proof.
  induction v as [ | | b | n | s | elems IH | fields _ ] using js_value_nested_ind.
  - split; [discriminate | inversion 1].
  - split; [discriminate | inversion 1].
  - split; [destruct b; discriminate | inversion 1].
  - split; [|inversion 1].
    intros Hn. injection Hn as Hn. exfalso. exact (NumberToString_nonempty n Hn).
  - simpl. split; [intros [= ->]; constructor | inversion 1; reflexivity].
  - rewrite ToString_VArray. split.
    + destruct (strings_of elems) as [parts|e] eqn:Hparts; [|discriminate].
      intros Heq. cbn [and_then] in Heq. injection Heq as Hjoin.
      apply join_comma_empty in Hjoin as [->| ->].
      * apply strings_of_nil in Hparts as ->. constructor.
      * apply strings_of_single in Hparts as (x & -> & Hx).
        destruct (is_nullish x) eqn:Hnullish.
        -- apply esl_nullish_element. exact Hnullish.
        -- apply esl_nested. inversion IH as [|? ? IHx _]; subst.
           apply IHx. exact Hx.
    + intros Hlike. inversion Hlike as [ | | x Hnullish | x Hx ]; subst.
      * reflexivity.
      * cbn [strings_of]. rewrite Hnullish. reflexivity.
      * cbn [strings_of]. destruct (is_nullish x); [reflexivity|].
        inversion IH as [|? ? IHx _]; subst.
        rewrite (proj2 IHx Hx). reflexivity.
  - split; [|inversion 1]. cbn [ToString].
    destruct (has_own "toString" fields); discriminate.
Qed.

Lemma loose_eq_empty_string_spec (v : js_value) :
  loose_eq_empty_string v = Normal true <-> loosely_empty v.
Proof.
  destruct v as [ | | b | n | s | elems | fields ]; cbn [loose_eq_empty_string].
  - split; [discriminate | inversion 1].
  - split; [discriminate | inversion 1].
  - destruct b; simpl; split; try discriminate; try constructor; inversion 1.
  - split; [intros [= Hn]; apply le_zero; exact Hn
           | inversion 1; f_equal; assumption].
  - split; [intros [= Hs]; apply String.eqb_eq in Hs as ->; constructor
           | inversion 1; reflexivity].
  - unfold ToPrimitive. split.
    + destruct (ToString (VArray elems)) as [s|e] eqn:Hs; [|discriminate].
      intros [= Heq]. apply String.eqb_eq in Heq as ->.
      apply le_array. apply ToString_empty. exact Hs.
    + inversion 1 as [ | | |? Hlike]; subst.
      apply ToString_empty in Hlike. rewrite Hlike. reflexivity.
  - unfold ToPrimitive. split; [|inversion 1]. cbn [ToString].
    destruct (has_own "toString" fields); discriminate.
Qed.

(** The comparison throws exactly when its left side cannot be
    converted. *)
Lemma loose_eq_empty_string_throws (v : js_value) (e : js_error) :
  loose_eq_empty_string v = Throw e <-> unconvertible v /\ e = cannot_convert.
Proof.
  assert (Hobject : forall x,
            and_then (ToPrimitive x) (fun s => Normal (String.eqb s ""))
            = Throw e <-> unconvertible x /\ e = cannot_convert).
  { intros x. unfold ToPrimitive. split.
    - destruct (ToString x) as [s|e'] eqn:Hx; [discriminate|].
      intros [= ->]. pose proof (ToString_error x e Hx) as ->.
      split; [|reflexivity]. apply ToString_throws. exact Hx.
    - intros [Hx ->]. apply ToString_throws in Hx. rewrite Hx. reflexivity. }
  destruct v as [ | | b | n | s | elems | fields ]; cbn [loose_eq_empty_string];
    try (split; [discriminate | intros [Habs _]; inversion Habs]);
    apply Hobject.
Qed.

Lemma loose_eq_empty_string_total (v : js_value) :
  ~ unconvertible v -> ~ loosely_empty v ->
  loose_eq_empty_string v = Normal false.
Proof.
  intros Hconv Hnot.
  destruct (loose_eq_empty_string v) as [[|]|e] eqn:Hv.
  - exfalso. apply Hnot. apply loose_eq_empty_string_spec. exact Hv.
  - reflexivity.
  - exfalso. apply Hconv. apply (loose_eq_empty_string_throws v e). exact Hv.
Qed.



End ValueFacts.

(** ** The helper validators of the tests *)

(** C8, as claimed, fails: with the number 0 in the login control the
    validator returns [{'loginIsEmpty': true}], although 0 is not the empty
    string (the comparison is [==], not [===]); and with [{toString: 1}] in
    the login control, which is not the empty string either, the validator
    does not return null: the comparison throws a TypeError. *)
Lemma loginIsEmptyGroupValidator_zero :
  (controls (group_with_login (VNumber 0%float)) !! "login"
     = Some (untouched_control (VNumber 0%float)) /\
   value (untouched_control (VNumber 0%float)) <> VString "" /\
   @loginIsEmptyGroupValidator example_host (group_with_login (VNumber 0%float))
     = Normal loginIsEmpty_error) /\
  (controls (group_with_login (VObject [("toString", VNumber 1%float)])) !! "login"
     = Some (untouched_control (VObject [("toString", VNumber 1%float)])) /\
   @loginIsEmptyGroupValidator example_host
      (group_with_login (VObject [("toString", VNumber 1%float)]))
     = Throw (TypeError "Cannot convert object to primitive value")).
Proof.
  split; split; try reflexivity. split; [discriminate|reflexivity].
Qed.

(** C8 (amended): for every FormGroup [c] that contains a [login] control,
    [loginIsEmptyGroupValidator c] returns [{'loginIsEmpty': true}] exactly
    when the login control's value is loosely equal ([==]) to the empty
    string, and null when it is not, unless the comparison throws: on a
    value that cannot be converted to a primitive the validator throws the
    comparison's TypeError. *)
Theorem loginIsEmptyGroupValidator_loose `{Host}
    (c : FormGroup) (login : AbstractControl) :
  controls c !! "login" = Some login ->
  (loginIsEmptyGroupValidator c = Normal loginIsEmpty_error <->
   loosely_empty (value login)) /\
  (loginIsEmptyGroupValidator c = Normal VNull <->
   ~ loosely_empty (value login) /\ ~ unconvertible (value login)) /\
  (loginIsEmptyGroupValidator c = Throw cannot_convert <->
   unconvertible (value login)) /\
  (loosely_empty (value login) -> ~ unconvertible (value login)).
Proof.
  intros Hlogin. unfold loginIsEmptyGroupValidator. rewrite Hlogin.
  pose proof (loose_eq_empty_string_spec (value login)) as Hspec.
  pose proof (loose_eq_empty_string_throws (value login)) as Hthrows.
  destruct (loose_eq_empty_string (value login)) as [[|]|e]; cbn [and_then].
  - assert (Hempty : loosely_empty (value login)) by (apply Hspec; reflexivity).
    assert (Hconv : ~ unconvertible (value login)).
    { intros Hx. assert (Habs : Normal true = Throw cannot_convert)
        by (apply Hthrows; auto). discriminate. }
    repeat split; try discriminate; try tauto.
  - assert (Hnot : ~ loosely_empty (value login)).
    { intros Hx. apply Hspec in Hx. discriminate. }
    assert (Hconv : ~ unconvertible (value login)).
    { intros Hx. assert (Habs : Normal false = Throw cannot_convert)
        by (apply Hthrows; auto). discriminate. }
    repeat split; try discriminate; try tauto.
  - destruct (proj1 (Hthrows e) eq_refl) as [Hx ->].
    assert (Hnot : ~ loosely_empty (value login)).
    { intros Hy. apply Hspec in Hy. discriminate. }
    repeat split; try discriminate; try tauto.
Qed.

Lemma loginIsEmptyGroupValidator_loose_witness :
  @loginIsEmptyGroupValidator example_host (group_with_login (VString ""))
    = Normal loginIsEmpty_error /\
  @loginIsEmptyGroupValidator example_host (group_with_login (VString "x"))
    = Normal VNull.
Proof.
  split.
  - apply (proj1 (@loginIsEmptyGroupValidator_loose example_host
                    (group_with_login (VString ""))
                    (untouched_control (VString "")) eq_refl)).
    constructor.
  - apply (proj1 (proj2 (@loginIsEmptyGroupValidator_loose example_host
                           (group_with_login (VString "x"))
                           (untouched_control (VString "x")) eq_refl))).
    split; inversion 1.
Defined.

(** *** The event loop *)

Lemma elem_of_insert_by_due (t u : timer) (l : list timer) :
  u ∈ insert_by_due t l <-> u = t \/ u ∈ l.
Proof.
  induction l as [|x l IH]; simpl.
  - rewrite list_elem_of_singleton. set_solver.
  - destruct (due x <=? due t).
    + rewrite !elem_of_cons, IH. tauto.
    + rewrite !elem_of_cons. tauto.
Qed.

Lemma elem_of_foldl_insert_by_due (u : timer) (l acc : list timer) :
  u ∈ foldl (fun acc t => insert_by_due t acc) acc l <-> u ∈ acc \/ u ∈ l.
Proof.
  revert acc. induction l as [|x l IH]; intros acc; simpl.
  - set_solver.
  - rewrite IH, elem_of_insert_by_due, elem_of_cons. tauto.
Qed.

Lemma elem_of_sort_by_due (u : timer) (l : list timer) :
  u ∈ sort_by_due l <-> u ∈ l.
Proof.
  unfold sort_by_due. rewrite elem_of_foldl_insert_by_due. set_solver.
Qed.

Lemma elem_of_due_timers (u : timer) (limit : Z) (el : event_loop) :
  u ∈ due_timers limit el <-> u ∈ timers el /\ due u <= limit.
Proof.
  unfold due_timers. rewrite elem_of_sort_by_due, list_elem_of_filter.
  unfold is_due. rewrite Z.leb_le. tauto.
Qed.

Lemma elem_of_later_timers (u : timer) (limit : Z) (el : event_loop) :
  u ∈ later_timers limit el <-> u ∈ timers el /\ limit < due u.
Proof.
  unfold later_timers. rewrite list_elem_of_filter.
  unfold is_due. rewrite Z.leb_gt. tauto.
Qed.

Lemma run_timer_other (t : timer) (el : event_loop) (p : nat) :
  target t <> p -> promises (run_timer t el) !! p = promises el !! p.
Proof.
  intros Hne. unfold run_timer, resolve; simpl.
  destruct (promises el !! target t) as [[|v]|]; simpl; try reflexivity.
  apply lookup_insert_ne. exact Hne.
Qed.

Lemma run_timer_hit (t : timer) (el : event_loop) :
  promises el !! target t = Some Pending ->
  promises (run_timer t el) !! target t = Some (Fulfilled (result t)).
Proof.
  intros Hp. unfold run_timer, resolve; simpl. rewrite Hp; simpl.
  apply lookup_insert_eq.
Qed.

Lemma run_timer_fulfilled (t : timer) (el : event_loop) (p : nat) (v : js_value) :
  promises el !! p = Some (Fulfilled v) ->
  promises (run_timer t el) !! p = Some (Fulfilled v).
Proof.
  intros Hp. destruct (decide (target t = p)) as [Heq|Hne].
  - unfold run_timer, resolve; simpl. rewrite Heq, Hp. exact Hp.
  - rewrite run_timer_other by exact Hne. exact Hp.
Qed.

Lemma foldl_run_timer_other (l : list timer) (el : event_loop) (p : nat) :
  (forall t, t ∈ l -> target t <> p) ->
  promises (foldl (fun acc t => run_timer t acc) el l) !! p = promises el !! p.
Proof.
  revert el. induction l as [|x l IH]; intros el Hall; simpl; [reflexivity|].
  rewrite IH by (intros t Ht; apply Hall; set_solver).
  apply run_timer_other. apply Hall. set_solver.
Qed.

Lemma foldl_run_timer_fulfilled (l : list timer) (el : event_loop) (p : nat)
    (v : js_value) :
  promises el !! p = Some (Fulfilled v) ->
  promises (foldl (fun acc t => run_timer t acc) el l) !! p = Some (Fulfilled v).
Proof.
  revert el. induction l as [|x l IH]; intros el Hp; simpl; [exact Hp|].
  apply IH. apply run_timer_fulfilled. exact Hp.
Qed.

Lemma foldl_run_timer_hit (l : list timer) (el : event_loop) (p : nat)
    (res : js_value) :
  (forall t, t ∈ l -> target t = p -> result t = res) ->
  (exists t, t ∈ l /\ target t = p) ->
  promises el !! p = Some Pending ->
  promises (foldl (fun acc t => run_timer t acc) el l) !! p
    = Some (Fulfilled res).
Proof.
  revert el. induction l as [|x l IH]; intros el Hres [t [Hin Ht]] Hp; simpl.
  - set_solver.
  - destruct (decide (target x = p)) as [Hx|Hx].
    + apply foldl_run_timer_fulfilled.
      rewrite <- (Hres x) by (set_solver || exact Hx).
      rewrite <- Hx. apply run_timer_hit. rewrite Hx. exact Hp.
    + apply IH.
      * intros u Hu. apply Hres. set_solver.
      * exists t. split; [|exact Ht].
        apply elem_of_cons in Hin as [->|Hin]; [contradiction|exact Hin].
      * rewrite run_timer_other by exact Hx. exact Hp.
Qed.

Lemma foldl_run_timer_timers (l : list timer) (el : event_loop) :
  timers (foldl (fun acc t => run_timer t acc) el l) = timers el.
Proof.
  revert el. induction l as [|x l IH]; intros el; simpl; [reflexivity|].
  rewrite IH. unfold run_timer, resolve; simpl.
  destruct (promises el !! target x) as [[|v]|]; reflexivity.
Qed.

Lemma tick_now (ms : Z) (el : event_loop) :
  now (tick ms el) = now el + Z.max 0 ms.
Proof. reflexivity. Qed.

Lemma tick_timers (ms : Z) (el : event_loop) :
  timers (tick ms el) = later_timers (now el + Z.max 0 ms) el.
Proof. unfold tick; simpl. apply foldl_run_timer_timers. Qed.

Lemma tick_fulfilled (ms : Z) (el : event_loop) (p : nat) (v : js_value) :
  promises el !! p = Some (Fulfilled v) ->
  promises (tick ms el) !! p = Some (Fulfilled v).
Proof.
  intros Hp. unfold tick; simpl. apply foldl_run_timer_fulfilled. exact Hp.
Qed.

Lemma tick_armed_early (ms : Z) (el : event_loop) (p : nat) (D : Z)
    (res : js_value) :
  armed p D res el -> now el + Z.max 0 ms < D -> armed p D res (tick ms el).
Proof.
  intros (Hp & (t & Hin & Ht) & Hall) Hearly. split; [|split].
  - unfold tick; simpl. rewrite foldl_run_timer_other; [exact Hp|].
    intros u Hu Htarget. apply elem_of_due_timers in Hu as [Hu Hdue].
    destruct (Hall u Hu Htarget) as [HD _]. lia.
  - exists t. split; [|exact Ht].
    rewrite tick_timers. apply elem_of_later_timers. split; [exact Hin|].
    destruct (Hall t Hin Ht) as [HD _]. lia.
  - intros u Hu Htarget.
    rewrite tick_timers in Hu. apply elem_of_later_timers in Hu as [Hu _].
    apply (Hall u Hu Htarget).
Qed.

Lemma tick_armed_late (ms : Z) (el : event_loop) (p : nat) (D : Z)
    (res : js_value) :
  armed p D res el -> D <= now el + Z.max 0 ms ->
  promises (tick ms el) !! p = Some (Fulfilled res).
Proof.
  intros (Hp & (t & Hin & Ht) & Hall) Hlate.
  unfold tick; simpl. apply foldl_run_timer_hit.
  - intros u Hu Htarget. apply elem_of_due_timers in Hu as [Hu _].
    apply (Hall u Hu Htarget).
  - exists t. split; [|exact Ht]. apply elem_of_due_timers. split; [exact Hin|].
    destruct (Hall t Hin Ht) as [HD _]. lia.
  - exact Hp.
Qed.

Lemma ticks_fulfilled (mss : list Z) (el : event_loop) (p : nat) (v : js_value) :
  promises el !! p = Some (Fulfilled v) ->
  promises (ticks mss el) !! p = Some (Fulfilled v).
Proof.
  revert el. induction mss as [|ms mss IH]; intros el Hp; simpl; [exact Hp|].
  apply IH. apply tick_fulfilled. exact Hp.
Qed.

Lemma ticks_armed (mss : list Z) (el : event_loop) (p : nat) (D : Z)
    (res : js_value) :
  armed p D res el ->
  (now el + elapsed mss < D -> promises (ticks mss el) !! p = Some Pending) /\
  (mss <> [] -> D <= now el + elapsed mss ->
   promises (ticks mss el) !! p = Some (Fulfilled res)).
Proof.
  revert el. induction mss as [|ms mss IH]; intros el Harmed.
  - split; [intros _; apply Harmed | congruence].
  - change (elapsed (ms :: mss)) with (Z.max 0 ms + elapsed mss).
    change (ticks (ms :: mss) el) with (ticks mss (tick ms el)).
    assert (Hnonneg : 0 <= elapsed mss).
    { clear. induction mss as [|x l IHl]; simpl; lia. }
    destruct (Z_lt_le_dec (now el + Z.max 0 ms) D) as [Hearly|Hlate].
    + pose proof (tick_armed_early ms el p D res Harmed Hearly) as Harmed'.
      destruct (IH _ Harmed') as [IHp IHf]. rewrite tick_now in IHp, IHf.
      split.
      * intros Hlt. apply IHp. lia.
      * intros _ Hge. apply IHf; [|lia].
        intros ->. simpl in Hge. lia.
    + split; [intros Hlt; lia|].
      intros _ _. apply ticks_fulfilled.
      apply (tick_armed_late ms el p D res Harmed Hlate).
Qed.

Lemma asyncValidator_armed (checker : AbstractControl -> bool)
    (timeout : option Z) (error : js_value) (c : AbstractControl)
    (el : event_loop) :
  timers_allocated el ->
  let r := asyncValidator checker timeout error c el in
  now r.2 = now el /\
  armed r.1 (now el + Z.max 0 (default 0 timeout))
    (if checker c then VNull
     else match error with VUndefined => default_async_error | _ => error end)
    r.2.
Proof.
  intros Hwf. unfold asyncValidator; simpl. split; [reflexivity|].
  split; [|split].
  - simpl. apply lookup_insert_eq.
  - eexists. split; [apply elem_of_app; right; apply list_elem_of_singleton;
                     reflexivity | reflexivity].
  - intros u Hu Htarget. simpl in Hu, Htarget.
    apply elem_of_app in Hu as [Hold|Hnew].
    + unfold timers_allocated in Hwf. rewrite Forall_forall in Hwf.
      apply Hwf in Hold. lia.
    + apply list_elem_of_singleton in Hnew. subst u. split; reflexivity.
Qed.

(** C4: the validator returned by [asyncValidator(checker, timeout, error)]
    produces a promise that is pending until the given timeout has passed
    and is then fulfilled with null when [checker(c)] was true at the call
    and with the error object otherwise; [uniqLoginAsyncValidator(expected)]
    resolves to null exactly when the control's value is [expected] and to
    [{'uniqLogin': true}] otherwise. The time passes by any series of
    [tick]s. *)
Theorem asyncValidator_resolves
    (checker : AbstractControl -> bool) (timeout : option Z) (error : js_value)
    (expectedValue : string) (c : AbstractControl) (el : event_loop)
    (mss : list Z) :
  timers_allocated el -> error <> VUndefined ->
  let delay := Z.max 0 (default 0 timeout) in
  let r := asyncValidator checker timeout error c el in
  let u := uniqLoginAsyncValidator expectedValue timeout c el in
  promises r.2 !! r.1 = Some Pending /\
  (elapsed mss < delay -> promises (ticks mss r.2) !! r.1 = Some Pending) /\
  (mss <> [] -> delay <= elapsed mss ->
   promises (ticks mss r.2) !! r.1
     = Some (Fulfilled (if checker c then VNull else error))) /\
  (mss <> [] -> delay <= elapsed mss ->
   (value c = VString expectedValue ->
    promises (ticks mss u.2) !! u.1 = Some (Fulfilled VNull)) /\
   (value c <> VString expectedValue ->
    promises (ticks mss u.2) !! u.1 = Some (Fulfilled uniqLogin_error))).
Proof.
  intros Hwf Herror delay r u.
  destruct (asyncValidator_armed checker timeout error c el Hwf)
    as [Hnow Harmed].
  fold r in Hnow, Harmed. fold delay in Harmed.
  replace (match error with VUndefined => default_async_error | _ => error end)
    with error in Harmed by (destruct error; congruence).
  destruct (ticks_armed mss _ _ _ _ Harmed) as [Hpending Hfulfilled].
  rewrite Hnow in Hpending, Hfulfilled.
  split; [apply Harmed|]. split; [intros Hlt; apply Hpending; lia|].
  split; [intros Hne Hge; apply Hfulfilled; [exact Hne | lia]|].
  intros Hne Hge.
  destruct (asyncValidator_armed
              (fun c => strict_eq_string (value c) expectedValue)
              timeout uniqLogin_error c el Hwf) as [Hnow' Harmed'].
  unfold uniqLoginAsyncValidator in u.
  fold u in Hnow', Harmed'. fold delay in Harmed'.
  destruct (ticks_armed mss _ _ _ _ Harmed') as [_ Hfulfilled'].
  rewrite Hnow' in Hfulfilled'.
  assert (Hge' : now el + delay <= now el + elapsed mss) by lia.
  specialize (Hfulfilled' Hne Hge').
  split.
  - intros Hvalue. rewrite Hfulfilled', Hvalue. simpl.
    rewrite String.eqb_refl. reflexivity.
  - intros Hvalue. rewrite Hfulfilled'.
    destruct (value c) as [ | | b | n | s | elems | fields ]; simpl; try reflexivity.
    destruct (String.eqb s expectedValue) eqn:Heq; [|reflexivity].
    apply String.eqb_eq in Heq. congruence.
Qed.

Lemma asyncValidator_resolves_witness :
  timers_allocated empty_loop /\
  promises
    (ticks [110]
       (uniqLoginAsyncValidator "expected" (Some 100)
          (untouched_control (VString "")) empty_loop).2)
    !! (uniqLoginAsyncValidator "expected" (Some 100)
          (untouched_control (VString "")) empty_loop).1
  = Some (Fulfilled uniqLogin_error).
Proof.
  split; [constructor|].
  refine (proj2 (proj2 (proj2 (proj2
            (asyncValidator_resolves (fun _ => true) (Some 100) uniqLogin_error
               "expected" (untouched_control (VString "")) empty_loop [110]
               _ _))) _ _) _).
  - constructor.
  - discriminate.
  - discriminate.
  - simpl. lia.
  - discriminate.
Defined.

(** ** The documented change-detection pass *)

Lemma hooks_called_app (s t : list event) :
  hooks_called (s ++ t) = (hooks_called s ++ hooks_called t)%list.
Proof. unfold hooks_called. apply flat_map_app. Qed.

Lemma hooks_called_cons (e : event) (t : list event) :
  hooks_called (e :: t)
  = match e with
    | CallHook _ h => h :: hooks_called t
    | _ => hooks_called t
    end.
Proof. destruct e; reflexivity. Qed.

Lemma elem_of_hooks_called (h : hook) (t : list event) :
  h ∈ hooks_called t <-> exists c, CallHook c h ∈ t.
Proof.
  induction t as [|e t IH].
  - split; [intros Hin | intros [c Hin]]; apply elem_of_nil in Hin; contradiction.
  - rewrite hooks_called_cons. split.
    + intros Hin. destruct e as [ | | | | c' h' | | | | | ];
        try (apply IH in Hin as [c Hin]; exists c; set_solver).
      apply elem_of_cons in Hin as [->|Hin].
      * exists c'. set_solver.
      * apply IH in Hin as [c Hin]. exists c. set_solver.
    + intros [c Hin]. apply elem_of_cons in Hin as [<-|Hin].
      * set_solver.
      * assert (Ht : h ∈ hooks_called t) by (apply IH; exists c; exact Hin).
        destruct e; set_solver.
Qed.

Lemma hooks_called_update_inputs (children : list (child_of view)) :
  hooks_called (flat_map update_inputs children) = [].
Proof.
  induction children as [|c children IH]; simpl; [reflexivity|]. exact IH.
Qed.

Lemma hooks_called_check_embedded (check : view -> view * list event)
    (embedded : list view) :
  hooks_called (check_embedded check embedded).2 = [].
Proof.
  induction embedded as [|e embedded IH]; simpl; [reflexivity|].
  destruct (check e) as [e' t].
  destruct (check_embedded check embedded) as [l ts]. exact IH.
Qed.

Lemma hooks_called_check_children (check : view -> view * list event)
    (children : list (child_of view)) :
  hooks_called (check_children check children).2 = [].
Proof.
  induction children as [|c children IH]; simpl; [reflexivity|].
  destruct (check_children check children) as [l ts]. simpl in IH.
  destruct (componentView c) as [u|]; simpl.
  - destruct (child_checks_enabled (bindingsChanged c) u); simpl.
    + destruct (check u) as [u' t]. simpl. exact IH.
    + exact IH.
  - exact IH.
Qed.

Lemma input_hooks_first (first : bool) (children : list (child_of view)) (h : hook) :
  h ∈ hooks_called (flat_map (input_hooks first) children) ->
  first_check_only h = true -> first = true.
Proof.
  induction children as [|c children IH]; simpl.
  - intros Hin. apply elem_of_nil in Hin. contradiction.
  - rewrite hooks_called_app, elem_of_app. intros [Hhere|Hrest] Honly.
    + unfold input_hooks in Hhere.
      destruct (bindingsChanged c), first; simpl in Hhere; try reflexivity;
        repeat (apply elem_of_cons in Hhere as [->|Hhere]; [discriminate|]);
        apply elem_of_nil in Hhere; contradiction.
    + apply IH; assumption.
Qed.

Lemma content_hooks_first (first : bool) (children : list (child_of view)) (h : hook) :
  h ∈ hooks_called (flat_map (content_hooks first) children) ->
  first_check_only h = true -> first = true.
Proof.
  induction children as [|c children IH]; simpl.
  - intros Hin. apply elem_of_nil in Hin. contradiction.
  - destruct first; [reflexivity|]. simpl.
    intros Hin Honly. apply elem_of_cons in Hin as [->|Hin]; [discriminate|].
    apply IH; assumption.
Qed.

Lemma view_hooks_first (first : bool) (children : list (child_of view)) (h : hook) :
  h ∈ hooks_called (flat_map (view_hooks first) children) ->
  first_check_only h = true -> first = true.
Proof.
  induction children as [|c children IH]; simpl.
  - intros Hin. apply elem_of_nil in Hin. contradiction.
  - destruct first; [reflexivity|]. simpl.
    intros Hin Honly. apply elem_of_cons in Hin as [->|Hin]; [discriminate|].
    apply IH; assumption.
Qed.

Lemma checkAndUpdateView_state (v : view) :
  firstCheck (state_of (checkAndUpdateView v).1)
    = Nat.eqb (checks (state_of v)) 0 /\
  checks (state_of (checkAndUpdateView v).1) = S (checks (state_of v)).
Proof. destruct v as [st push changed children embedded]. split; reflexivity. Qed.

Lemma checkAndUpdateView_hooks (v : view) (h : hook) :
  h ∈ hooks_called (checkAndUpdateView v).2 ->
  first_check_only h = true -> checks (state_of v) = 0%nat.
Proof.
  destruct v as [st push changed children embedded]. simpl.
  rewrite !hooks_called_app, hooks_called_update_inputs,
    hooks_called_check_embedded, hooks_called_check_children,
    hooks_called_cons, hooks_called_app.
  intros Hin Honly. apply Nat.eqb_eq.
  rewrite !elem_of_app in Hin.
  destruct Hin as [Hin|[Hin|[Hin|[Hin|[Hin|[Hin|[Hin|Hin]]]]]]].
  - apply elem_of_nil in Hin. contradiction.
  - apply elem_of_nil in Hin. contradiction.
  - exact (input_hooks_first _ _ _ Hin Honly).
  - exact (content_hooks_first _ _ _ Hin Honly).
  - destruct changed; apply elem_of_nil in Hin; contradiction.
  - apply elem_of_nil in Hin. contradiction.
  - exact (view_hooks_first _ _ _ Hin Honly).
  - destruct push; apply elem_of_nil in Hin; contradiction.
Qed.

(** During a first check the three hooks are called on every child. *)
Lemma checkAndUpdateView_first_calls (st : ViewState) (push changed : bool)
    (c : child_of view) (children : list (child_of view)) (embedded : list view)
    (h : hook) :
  checks st = 0%nat -> first_check_only h = true ->
  h ∈ hooks_called
        (checkAndUpdateView (View st push changed (c :: children) embedded)).2.
Proof.
  intros Hfirst Honly. apply elem_of_hooks_called. exists (cid c).
  simpl. rewrite Hfirst. simpl. unfold input_hooks.
  destruct (bindingsChanged c); destruct h; try discriminate; set_solver.
Qed.

(** C3: in the documented pass, OnInit, AfterContentInit and AfterViewInit
    are called only during a view's first check, and [firstCheck] is true
    exactly on the first check: for the check of a view that follows
    [earlier] checks of it, [firstCheck] is true if and only if [earlier]
    is 0, and the pass calls one of the three hooks only if [earlier] is 0. *)
Theorem first_check_only_hooks (v : view) (n : nat) :
  let r := nth_check n v in
  let earlier := (checks (state_of v) + n)%nat in
  firstCheck (state_of r.1) = Nat.eqb earlier 0 /\
  forall h, first_check_only h = true -> h ∈ hooks_called r.2 ->
            earlier = 0%nat.
Proof.
  revert v. induction n as [|n IH]; intros v; simpl.
  - rewrite Nat.add_0_r. split.
    + apply checkAndUpdateView_state.
    + intros h Honly Hin. exact (checkAndUpdateView_hooks v h Hin Honly).
  - specialize (IH (checkAndUpdateView v).1). simpl in IH.
    destruct (checkAndUpdateView_state v) as [_ Hchecks].
    rewrite Hchecks in IH.
    replace (checks (state_of v) + S n)%nat
      with (S (checks (state_of v)) + n)%nat by lia.
    exact IH.
Qed.

(** ** The example component *)

(** C10: [QuestSummaryComponent] declares no members, and its component
    metadata sets the selector, the template URL and the style URLs and
    nothing else. *)
Theorem QuestSummaryComponent_trivial :
  members QuestSummaryComponent = [] /\
  decorator QuestSummaryComponent = ("Component", QuestSummaryComponent_metadata) /\
  map fst QuestSummaryComponent_metadata = ["selector"; "templateUrl"; "styleUrls"].
Proof. repeat split. Qed.

(** ** Directive misuse *)

(** C2, as claimed, fails: under an [ngModelGroup] parent the error of the
    first change detection does not match
    ['formControlName must be used with a parent formGroup directive'];
    and with the formGroup directive bound to [{}], which is not a
    FormGroup instance, the error is the engine's TypeError, which does
    not match ['formGroup expects a FormGroup instance']. *)
Lemma formControlName_in_ngModelGroup :
  (throws_matching "formControlName must be used with a parent formGroup directive"
     (first_detectChanges (formControlName_in (Some NgModelGroup))) = false /\
   first_detectChanges (formControlName_in (Some NgModelGroup))
     = Throw ngModelGroupException) /\
  (throws_matching "formGroup expects a FormGroup instance"
     (first_detectChanges (formGroup_bound_to (form_value (VObject [])))) = false /\
   first_detectChanges (formGroup_bound_to (form_value (VObject [])))
     = Throw notAFormGroupError).
Proof. repeat split. Qed.

(** C2 (amended): a template that uses formControlName without a parent
    formGroup directive throws on the first change detection: standalone
    or inside NgForm with an error matching
    ['formControlName must be used with a parent formGroup directive'],
    and inside NgModelGroup with an error matching
    ['formControlName cannot be used with an ngModelGroup parent.']; when
    the formGroup directive is bound to a value that is not a FormGroup
    instance, the first change detection throws too: for a falsy value
    (undefined when no form is passed in) an error matching
    ['formGroup expects a FormGroup instance'], for a truthy one the
    engine's TypeError. With a FormGroup instance the directive does not
    throw. *)
Theorem directive_misuse_throws :
  throws_matching "formControlName must be used with a parent formGroup directive"
    (first_detectChanges (formControlName_in None)) = true /\
  throws_matching "formControlName must be used with a parent formGroup directive"
    (first_detectChanges (formControlName_in (Some NgForm))) = true /\
  throws_matching "formControlName cannot be used with an ngModelGroup parent."
    (first_detectChanges (formControlName_in (Some NgModelGroup))) = true /\
  (forall v, truthy v = false ->
     throws_matching "formGroup expects a FormGroup instance"
       (first_detectChanges (formGroup_bound_to (form_value v))) = true) /\
  (forall v, truthy v = true ->
     first_detectChanges (formGroup_bound_to (form_value v))
     = Throw notAFormGroupError) /\
  (forall g, first_detectChanges (formGroup_bound_to (form_instance g)) = Normal tt).
Proof.
  split; [reflexivity|]. split; [reflexivity|]. split; [reflexivity|].
  split; [|split].
  - intros v Hfalsy. cbn [first_detectChanges].
    unfold FormGroupDirective_ngOnChanges, _checkFormPresent.
    rewrite Hfalsy. reflexivity.
  - intros v Htruthy. cbn [first_detectChanges].
    unfold FormGroupDirective_ngOnChanges, _checkFormPresent.
    rewrite Htruthy. reflexivity.
  - intros g. reflexivity.
Qed.

(** ** The forms runtime *)

Lemma _runAsyncValidator_spec (emitEvent : bool) (c : FormControl) (el : event_loop) :
  let r := _runAsyncValidator emitEvent c el in
  value r.1 = value c /\ errors r.1 = errors c /\
  pristine r.1 = pristine c /\ touched r.1 = touched c /\
  status r.1 = match (async_validators c).1 with
               | [] => status c
               | _ => PENDING
               end /\
  _pendingValue r.1 = _pendingValue c /\
  _pendingChange r.1 = _pendingChange c /\
  _pendingDirty r.1 = _pendingDirty c /\
  _pendingTouched r.1 = _pendingTouched c /\
  updateOn r.1 = updateOn c /\
  _rawValidators r.1 = _rawValidators c /\
  _rawAsyncValidators r.1 = _rawAsyncValidators c /\
  emitted r.1 = emitted c.
Proof.
  unfold _runAsyncValidator.
  destruct (async_validators c) as [[|f fs] m]; simpl.
  - repeat split.
  - destruct (f _ el) as [p el1].
    destruct (call_async fs _ el1) as [ps el2]. simpl. repeat split.
Qed.

Lemma updateValueAndValidity_spec (emitEvent : bool) (c : FormControl)
    (el : event_loop) :
  let r := updateValueAndValidity emitEvent c el in
  let e := match validator c with
           | Some f => f (seen_by_validator (base c))
           | None => VNull
           end in
  value r.1 = value c /\ errors r.1 = e /\
  pristine r.1 = pristine c /\ touched r.1 = touched c /\
  status r.1 = status_after_update c e /\
  _pendingValue r.1 = _pendingValue c /\
  _pendingChange r.1 = _pendingChange c /\
  _pendingDirty r.1 = _pendingDirty c /\
  _pendingTouched r.1 = _pendingTouched c /\
  updateOn r.1 = updateOn c /\
  _rawValidators r.1 = _rawValidators c /\
  _rawAsyncValidators r.1 = _rawAsyncValidators c /\
  emitted r.1 = (emitted c ++
                 if emitEvent
                 then [valueChanges (value c); statusChanges (status r.1)]
                 else [])%list /\
  (truthy e = true -> _asyncValidationSubscription r.1 = None /\ r.2 = el).
Proof.
  intros r e. subst r. unfold updateValueAndValidity.
  set (c0 := with_base (set_status VALID) c).
  set (c1 := set_subscription None c0).
  assert (He : _runValidator c1 = e).
  { subst e c1 c0. unfold _runValidator, validator. simpl.
    destruct (coerceToValidator (_rawValidators c)); reflexivity. }
  rewrite He.
  set (c2 := with_base (set_errors e) c1).
  set (c3 := with_base (set_status (_calculateStatus (base c2))) c2).
  assert (Hstatus3 : status c3 = if truthy e then INVALID else VALID) by reflexivity.
  unfold status_after_update.
  destruct (truthy e) eqn:Htruthy.
  - rewrite Hstatus3.
    destruct emitEvent; simpl; unfold _calculateStatus; simpl;
      rewrite Htruthy, ?app_nil_r; repeat split.
  - rewrite Hstatus3.
    pose proof (_runAsyncValidator_spec emitEvent c3 el) as Hasync.
    destruct (_runAsyncValidator emitEvent c3 el) as [c4 el1].
    simpl in Hasync.
    destruct Hasync as (Hv & Herr & Hp & Ht & Hs & Hpv & Hpc & Hpd & Hpt
                        & Hu & Hrv & Hra & Hem).
    change (async_validators c3) with (async_validators c) in Hs.
    assert (Hs' : status c4 = match (async_validators c).1 with
                              | [] => VALID
                              | _ => PENDING
                              end).
    { change (_calculateStatus (set_errors e (set_status VALID c)))
        with (status c3) in Hs.
      rewrite Hstatus3 in Hs. exact Hs. }
    destruct emitEvent; simpl;
      rewrite ?Hv, ?Herr, ?Hp, ?Ht, ?Hpv, ?Hpc, ?Hpd, ?Hpt, ?Hu, ?Hrv, ?Hra,
        ?Hem, ?app_nil_r;
      repeat split; try reflexivity; try exact Hs'; try discriminate.
Qed.

Lemma status_after_update_ext (c c' : FormControl) (e : js_value) :
  _rawAsyncValidators c = _rawAsyncValidators c' ->
  status_after_update c e = status_after_update c' e.
Proof.
  intros Hraw. unfold status_after_update, async_validators. rewrite Hraw.
  reflexivity.
Qed.

Section RuntimeFacts.
Context `{Host}.

(** What [setValue] leaves behind; [e] is the result of the sync validator
    on the control holding the new value. *)
Lemma setValue_spec (v : js_value) (emitModelToViewChange emitEvent : bool)
    (w : World) :
  let w' := setValue v emitModelToViewChange emitEvent w in
  let c := control w in
  let c' := control w' in
  let e := validation_result c (set_value v (base c)) in
  value c' = v /\ errors c' = e /\
  pristine c' = pristine c /\ touched c' = touched c /\
  status c' = status_after_update c e /\
  _pendingValue c' = v /\
  _pendingChange c' = _pendingChange c /\
  _pendingDirty c' = _pendingDirty c /\
  _pendingTouched c' = _pendingTouched c /\
  updateOn c' = updateOn c /\
  _rawValidators c' = _rawValidators c /\
  _rawAsyncValidators c' = _rawAsyncValidators c /\
  emitted c' = (emitted c ++
                if emitEvent
                then [valueChanges v; statusChanges (status c')]
                else [])%list /\
  registered w' = registered w /\
  input_value w' = (if registered w && emitModelToViewChange
                    then written v (input_value w) else input_value w) /\
  (truthy e = true ->
   _asyncValidationSubscription c' = None /\ loop w' = loop w).
Proof.
  intros w' c c' e. subst w' c'. unfold setValue.
  set (c1 := set_pending v (_pendingChange c) (_pendingDirty c)
               (_pendingTouched c) (with_base (set_value v) c)).
  assert (Hw1 : with_control
                  (fun c => set_pending v (_pendingChange c) (_pendingDirty c)
                              (_pendingTouched c) (with_base (set_value v) c)) w
                = {| control := c1; input_value := input_value w;
                     registered := registered w; loop := loop w |})
    by reflexivity.
  rewrite Hw1. clear Hw1. cbn [registered].
  pose proof (updateValueAndValidity_spec emitEvent c1 (loop w)) as Hupd.
  cbv zeta in Hupd.
  change (validator c1) with (validator c) in Hupd.
  change (match validator c with
          | Some f => f (seen_by_validator (base c1))
          | None => VNull
          end) with e in Hupd.
  rewrite (status_after_update_ext c1 c e eq_refl) in Hupd.
  destruct (registered w && emitModelToViewChange);
    unfold run_control, writeValue; cbn [control loop input_value registered];
    destruct (updateValueAndValidity emitEvent c1 (loop w)) as [c2 el2];
    cbn [control loop input_value registered fst snd] in *;
    exact (let '(conj Hv (conj He (conj Hp (conj Ht (conj Hs (conj Hpv
             (conj Hpc (conj Hpd (conj Hpt (conj Hu (conj Hrv (conj Hra
             (conj Hem Hsub))))))))))))) := Hupd in
           conj Hv (conj He (conj Hp (conj Ht (conj Hs (conj Hpv
             (conj Hpc (conj Hpd (conj Hpt (conj Hu (conj Hrv (conj Hra
             (conj Hem (conj eq_refl (conj eq_refl Hsub))))))))))))))).
Qed.


(** What the view-to-model update leaves behind. *)
Lemma markAsDirty_if_pending (w : World) :
  control (if _pendingDirty (control w) then with_control markAsDirty w else w)
  = with_base (set_pristine (if _pendingDirty (control w) then false
                             else pristine (control w))) (control w) /\
  registered (if _pendingDirty (control w) then with_control markAsDirty w else w)
  = registered w /\
  input_value (if _pendingDirty (control w) then with_control markAsDirty w else w)
  = input_value w /\
  loop (if _pendingDirty (control w) then with_control markAsDirty w else w)
  = loop w.
Proof.
  destruct (_pendingDirty (control w)); repeat split.
  destruct w as [[[v e st p t] pv pc pd pt u rv ra sub em] iv reg el].
  reflexivity.
Qed.

Lemma updateControl_spec (w : World) :
  let c := control w in
  let c' := control (updateControl w) in
  let p := if _pendingDirty c then false else pristine c in
  let e := validation_result c
             (set_pristine p (set_value (_pendingValue c) (base c))) in
  value c' = _pendingValue c /\ errors c' = e /\
  pristine c' = p /\ touched c' = touched c /\
  status c' = status_after_update c e /\
  _pendingValue c' = _pendingValue c /\
  _pendingChange c' = false /\
  _pendingDirty c' = _pendingDirty c /\
  _pendingTouched c' = _pendingTouched c /\
  updateOn c' = updateOn c /\
  _rawValidators c' = _rawValidators c /\
  _rawAsyncValidators c' = _rawAsyncValidators c /\
  emitted c' = (emitted c ++
                [valueChanges (_pendingValue c); statusChanges (status c')])%list /\
  registered (updateControl w) = registered w /\
  input_value (updateControl w) = input_value w /\
  (truthy e = true ->
   _asyncValidationSubscription c' = None /\ loop (updateControl w) = loop w).
Proof.
  intros c c' p e. subst c'. unfold updateControl.
  destruct (markAsDirty_if_pending w) as (Hc1 & Hreg1 & Hin1 & Hloop1).
  set (w1 := if _pendingDirty (control w)
             then with_control markAsDirty w else w) in *.
  clearbody w1.
  pose proof (setValue_spec (_pendingValue (control w1)) false true w1) as Hset.
  cbv zeta in Hset. rewrite andb_false_r, Hreg1, Hin1, Hloop1 in Hset.
  set (w2 := setValue (_pendingValue (control w1)) false true w1) in *.
  clearbody w2. rewrite Hc1 in Hset. clear Hc1 Hreg1 Hin1 Hloop1 w1.
  destruct Hset as (Hv & He & Hp & Ht & Hs & Hpv & Hpc & Hpd & Hpt & Hu & Hrv
                    & Hra & Hem & Hreg & Hin & Hsub).
  destruct w2 as [c2 iv2 reg2 el2].
  cbn [with_control control registered input_value loop] in *.
  destruct c2 as [[v2 e2 st2 p2 t2] pv2 pc2 pd2 pt2 u2 rv2 ra2 sub2 em2].
  cbn [set_pending base value errors status pristine touched _pendingValue
         _pendingChange _pendingDirty _pendingTouched updateOn _rawValidators
         _rawAsyncValidators emitted _asyncValidationSubscription] in *.
  subst.
  repeat split; try reflexivity; apply Hsub; assumption.
Qed.

(** An [input] event on a control that does not update on change only
    records the pending value. *)
Lemma dispatch_input_deferred (s : string) (w : World) :
  registered w = true -> updateOn (control w) <> on_change ->
  dispatch_input s w
  = {| control := set_pending (VString s) true true
                    (_pendingTouched (control w)) (control w);
       input_value := s;
       registered := true;
       loop := loop w |}.
Proof.
  intros Hreg Hupd. unfold dispatch_input. cbn [registered]. rewrite Hreg.
  cbn [with_control control updateOn set_pending].
  destruct (updateOn (control w)) eqn:Hu; [contradiction| |]; reflexivity.
Qed.

Lemma inputs_deferred (ss : list string) (s : string) (w : World) :
  registered w = true -> updateOn (control w) <> on_change ->
  inputs (ss ++ [s]) w
  = {| control := set_pending (VString s) true true
                    (_pendingTouched (control w)) (control w);
       input_value := s;
       registered := true;
       loop := loop w |}.
Proof.
  revert w. induction ss as [|x ss IH]; intros w Hreg Hupd.
  - apply dispatch_input_deferred; assumption.
  - change (inputs ((x :: ss) ++ [s]) w)
      with (inputs (ss ++ [s]) (dispatch_input x w)).
    rewrite (dispatch_input_deferred x w Hreg Hupd).
    rewrite IH by (try reflexivity; exact Hupd). reflexivity.
Qed.

(** Without a running async validation the fixture's [tick] leaves the
    control as it is. *)
Lemma deliver_idle (w : World) :
  _asyncValidationSubscription (control w) = None -> deliver w = w.
Proof. intros Hsub. unfold deliver. rewrite Hsub. reflexivity. Qed.

Lemma world_tick_idle (ms : Z) (w : World) :
  _asyncValidationSubscription (control w) = None ->
  control (world_tick ms w) = control w.
Proof.
  intros Hsub. unfold world_tick. rewrite (deliver_idle w Hsub).
  cbn [with_loop control].
  set (start := with_loop _ w).
  assert (Hstart : control start = control w) by reflexivity.
  rewrite <- Hstart. rewrite <- Hstart in Hsub. clearbody start. clear Hstart.
  revert start Hsub.
  induction (due_timers (now (loop w) + Z.max 0 ms) (loop w)) as [|t l IH];
    intros start Hsub; simpl; [reflexivity|].
  rewrite IH.
  - rewrite deliver_idle by exact Hsub. reflexivity.
  - rewrite deliver_idle by exact Hsub. exact Hsub.
Qed.

Lemma world_ticks_idle (mss : list Z) (w : World) :
  _asyncValidationSubscription (control w) = None ->
  control (world_ticks mss w) = control w.
Proof.
  revert w. induction mss as [|ms mss IH]; intros w Hsub; simpl; [reflexivity|].
  unfold world_ticks in *. simpl. rewrite IH.
  - apply world_tick_idle. exact Hsub.
  - rewrite world_tick_idle by exact Hsub. exact Hsub.
Qed.

Lemma loop_foldl_deliver (l : list timer) (start : World) :
  loop (foldl (fun acc t => deliver (with_loop (run_timer t) acc)) start l)
  = foldl (fun acc t => run_timer t acc) (loop start) l.
Proof.
  assert (Hdeliver : forall w, loop (deliver w) = loop w).
  { intros w. unfold deliver.
    destruct (_asyncValidationSubscription (control w)) as [sub|]; [|reflexivity].
    destruct (mapM (fulfilled (loop w)) (sources sub)); reflexivity. }
  revert start. induction l as [|t l IH]; intros start; simpl; [reflexivity|].
  rewrite IH, Hdeliver. reflexivity.
Qed.

(** The fixture's [tick] moves the event loop as [tick] does. *)
Lemma world_tick_loop (ms : Z) (w : World) :
  loop (world_tick ms w) = tick ms (loop w).
Proof.
  unfold world_tick, tick. cbn [with_loop loop].
  rewrite loop_foldl_deliver.
  assert (Hdeliver : loop (deliver w) = loop w).
  { unfold deliver.
    destruct (_asyncValidationSubscription (control w)) as [sub|]; [|reflexivity].
    destruct (mapM (fulfilled (loop w)) (sources sub)); reflexivity. }
  cbn [with_loop loop]. rewrite Hdeliver. reflexivity.
Qed.

Lemma status_after_update_invalid (c : FormControl) (e : js_value) :
  truthy e = true -> status_after_update c e = INVALID.
Proof. intros He. unfold status_after_update. rewrite He. reflexivity. Qed.


(** A [blur] on a control that updates on blur and has a change pending. *)
Lemma dispatch_blur_pending (w : World) :
  registered w = true -> updateOn (control w) = on_blur ->
  _pendingChange (control w) = true ->
  dispatch_blur w
  = with_control markAsTouched
      (updateControl
         (with_control
            (fun c => set_pending (_pendingValue c) (_pendingChange c)
                        (_pendingDirty c) true c) w)).
Proof.
  intros Hreg Hupd Hchange. unfold dispatch_blur. rewrite Hreg.
  set (w1 := with_control _ w).
  assert (Hu1 : updateOn (control w1) = on_blur) by exact Hupd.
  assert (Hc1 : _pendingChange (control w1) = true) by exact Hchange.
  rewrite Hu1, Hc1.
  destruct (updateControl_spec w1)
    as (_ & _ & _ & _ & _ & _ & _ & _ & _ & Hu & _).
  rewrite Hu, Hu1. reflexivity.
Qed.


Lemma pending_flags_applied_spec (w : World) :
  let c := control w in
  let c' := control (pending_flags_applied w) in
  value c' = value c /\ errors c' = errors c /\ status c' = status c /\
  _pendingValue c' = _pendingValue c /\
  _pendingChange c' = _pendingChange c /\
  updateOn c' = updateOn c /\
  _rawValidators c' = _rawValidators c /\
  _rawAsyncValidators c' = _rawAsyncValidators c /\
  emitted c' = emitted c /\
  registered (pending_flags_applied w) = registered w.
Proof.
  unfold pending_flags_applied.
  destruct (_pendingDirty (control w)); cbn [with_control control];
    [ change (_pendingTouched (markAsDirty (control w)))
        with (_pendingTouched (control w)) | ];
    destruct (_pendingTouched (control w)); repeat split.
Qed.





(** C5: when the sync validator of a control reports an error on the
    value just set or typed in, the control is not valid after any time
    has passed: the async validator is not run, a running async validation
    is cancelled, and its success cannot make the control valid. *)
Theorem sync_error_not_overridden (w : World) (f : ValidatorFn)
    (v : js_value) (emitModelToViewChange emitEvent : bool) (mss : list Z) :
  validator (control w) = Some f ->
  (forall a, value a = v -> truthy (f a) = true) ->
  (let w' := world_ticks mss (setValue v emitModelToViewChange emitEvent w) in
   valid (control w') = false /\ status (control w') = INVALID /\
   truthy (errors (control w')) = true) /\
  (forall s, v = VString s ->
   registered w = true -> updateOn (control w) = on_change ->
   let w' := world_ticks mss (dispatch_input s w) in
   valid (control w') = false /\ status (control w') = INVALID /\
   truthy (errors (control w')) = true).
Proof.
  intros Hf Herr. split.
  - destruct (setValue_spec v emitModelToViewChange emitEvent w)
      as (_ & He & _ & _ & Hs & _ & _ & _ & _ & _ & _ & _ & _ & _ & _ & Hsub).
    assert (Htruthy : truthy (validation_result (control w)
                                (set_value v (base (control w)))) = true).
    { unfold validation_result. rewrite Hf. apply Herr. reflexivity. }
    destruct (Hsub Htruthy) as [Hnone _].
    cbv zeta. unfold valid.
    rewrite (world_ticks_idle mss _ Hnone), Hs, He.
    rewrite (status_after_update_invalid _ _ Htruthy). repeat split.
    exact Htruthy.
  - intros s -> Hreg Hupd.
    assert (Hinput : dispatch_input s w
                     = updateControl
                         (with_control
                            (fun c => set_pending (VString s) true true
                                        (_pendingTouched c) c)
                            {| control := control w; input_value := s;
                               registered := registered w; loop := loop w |})).
    { unfold dispatch_input. cbn [registered]. rewrite Hreg.
      cbn [with_control control updateOn set_pending]. rewrite Hupd.
      reflexivity. }
    rewrite Hinput. set (w1 := with_control _ _).
    destruct (updateControl_spec w1)
      as (_ & He & _ & _ & Hs & _ & _ & _ & _ & _ & _ & _ & _ & _ & _ & Hsub).
    cbv zeta in He, Hs, Hsub.
    assert (Htruthy : truthy (validation_result (control w1)
                                (set_pristine
                                   (if _pendingDirty (control w1) then false
                                    else pristine (control w1))
                                   (set_value (_pendingValue (control w1))
                                      (base (control w1))))) = true).
    { unfold validation_result.
      change (validator (control w1)) with (validator (control w)).
      rewrite Hf. apply Herr. reflexivity. }
    destruct (Hsub Htruthy) as [Hnone _].
    cbv zeta. unfold valid.
    rewrite (world_ticks_idle mss _ Hnone), Hs, He.
    rewrite (status_after_update_invalid _ _ Htruthy). repeat split.
    exact Htruthy.
Qed.







(** *** The view and what it stands for *)


















End RuntimeFacts.

(** ** The claims at the fixtures of the tests *)



Lemma sync_error_not_overridden_witness :
  valid (control (world_ticks [110]
                    (@dispatch_input example_host ""
                       (@dispatch_input example_host "expected" async_fixture))))
  = false.
Proof.
  refine (proj1 (proj2 (@sync_error_not_overridden example_host
                          (@dispatch_input example_host "expected" async_fixture)
                          (fun c => mergeErrors (map (fun v => v c) [required]))
                          (VString "") true true [110] eq_refl _)
                   "" eq_refl eq_refl eq_refl)).
  intros a Ha. simpl. unfold required. rewrite Ha. reflexivity.
Defined.






(** * Further properties of the code *)

(** ** [asyncValidator]: fresh promises, untouched neighbours, defaults *)

Lemma elapsed_nonneg (mss : list Z) : 0 <= elapsed mss.
Proof. induction mss as [|ms mss IH]; simpl; lia. Qed.

(** Calling the validator returned by [asyncValidator] creates a promise
    the loop did not know, leaves every other promise as it is, adds
    exactly one timer, due after the timeout, does not move the clock, and
    keeps the loop well formed. *)
Theorem asyncValidator_frame (checker : AbstractControl -> bool)
    (timeout : option Z) (error : js_value) (c : AbstractControl)
    (el : event_loop) :
  loop_wf el ->
  let r := asyncValidator checker timeout error c el in
  promises el !! r.1 = None /\
  (forall q, q <> r.1 -> promises r.2 !! q = promises el !! q) /\
  (exists t, timers r.2 = (timers el ++ [t])%list /\ target t = r.1 /\
             due t = now el + Z.max 0 (default 0 timeout) /\
             result t = resolved_with checker error c) /\
  now r.2 = now el /\
  loop_wf r.2.
Proof.
  intros [Htimers Hfresh] r. subst r. unfold asyncValidator. cbn [fst snd new_promise setTimeout promises timers now next_promise].
  split; [apply Hfresh; lia|].
  split; [intros q Hq; apply lookup_insert_ne; congruence|].
  split; [eexists; split; [reflexivity|]; repeat split|].
  split; [reflexivity|].
  split.
  - unfold timers_allocated in *. cbn [timers next_promise].
    apply Forall_app. split.
    + eapply Forall_impl; [exact Htimers|]. intros t Ht. simpl in *. lia.
    + constructor; [simpl; lia | constructor].
  - simpl. intros p Hp.
    rewrite lookup_insert_ne by lia. apply Hfresh. lia.
Qed.

Lemma asyncValidator_frame_witness :
  promises empty_loop
    !! (asyncValidator (fun _ => false) (Some 5) VUndefined
          (untouched_control VNull) empty_loop).1 = None /\
  now (asyncValidator (fun _ => false) (Some 5) VUndefined
         (untouched_control VNull) empty_loop).2 = 0.
Proof.
  assert (Hwf : loop_wf empty_loop).
  { split; [constructor | intros p _; apply lookup_empty]. }
  destruct (asyncValidator_frame (fun _ => false) (Some 5) VUndefined
              (untouched_control VNull) empty_loop Hwf)
    as (Hnew & _ & _ & Hnow & _).
  split; [exact Hnew | exact Hnow].
Defined.

Lemma asyncValidator_timers_allocated (checker : AbstractControl -> bool)
    (timeout : option Z) (error : js_value) (c : AbstractControl)
    (el : event_loop) :
  timers_allocated el ->
  timers_allocated (asyncValidator checker timeout error c el).2 /\
  next_promise (asyncValidator checker timeout error c el).2
  = S (next_promise el) /\
  (asyncValidator checker timeout error c el).1 = next_promise el.
Proof.
  intros Htimers. split; [|split; reflexivity].
  unfold asyncValidator, timers_allocated in *.
  cbn [fst snd new_promise setTimeout timers next_promise].
  apply Forall_app. split.
  - eapply Forall_impl; [exact Htimers|]. intros t Ht. simpl in *. lia.
  - constructor; [simpl; lia | constructor].
Qed.

(** A promise that waits for its timer keeps waiting while another
    validation starts. *)
Lemma asyncValidator_keeps_armed (checker : AbstractControl -> bool)
    (timeout : option Z) (error : js_value) (c : AbstractControl)
    (el : event_loop) (p : nat) (D : Z) (res : js_value) :
  armed p D res el -> (p < next_promise el)%nat ->
  armed p D res (asyncValidator checker timeout error c el).2.
Proof.
  intros (Hp & (t & Hin & Ht) & Hall) Hlt.
  unfold asyncValidator. simpl.
  split; [|split].
  - simpl. rewrite lookup_insert_ne by lia. exact Hp.
  - exists t. simpl. split; [|exact Ht]. apply elem_of_app. left. exact Hin.
  - intros u Hu Htarget. simpl in Hu.
    apply elem_of_app in Hu as [Hold|Hnew].
    + apply (Hall u Hold Htarget).
    + apply list_elem_of_singleton in Hnew. subst u. simpl in Htarget. lia.
Qed.

(** Two validations started one after the other do not disturb each
    other: each promise is pending until its own timeout has passed and is
    then fulfilled with its own result. *)
Theorem asyncValidator_independent
    (checker1 checker2 : AbstractControl -> bool) (timeout1 timeout2 : option Z)
    (error1 error2 : js_value) (c1 c2 : AbstractControl) (el : event_loop)
    (mss : list Z) :
  timers_allocated el ->
  let r1 := asyncValidator checker1 timeout1 error1 c1 el in
  let r2 := asyncValidator checker2 timeout2 error2 c2 r1.2 in
  let delay1 := Z.max 0 (default 0 timeout1) in
  let delay2 := Z.max 0 (default 0 timeout2) in
  r1.1 <> r2.1 /\
  (elapsed mss < delay1 -> promises (ticks mss r2.2) !! r1.1 = Some Pending) /\
  (mss <> [] -> delay1 <= elapsed mss ->
   promises (ticks mss r2.2) !! r1.1
   = Some (Fulfilled (resolved_with checker1 error1 c1))) /\
  (elapsed mss < delay2 -> promises (ticks mss r2.2) !! r2.1 = Some Pending) /\
  (mss <> [] -> delay2 <= elapsed mss ->
   promises (ticks mss r2.2) !! r2.1
   = Some (Fulfilled (resolved_with checker2 error2 c2))).
Proof.
  intros Hwf r1 r2 delay1 delay2.
  destruct (asyncValidator_armed checker1 timeout1 error1 c1 el Hwf)
    as [Hnow1 Harmed1].
  destruct (asyncValidator_timers_allocated checker1 timeout1 error1 c1 el Hwf)
    as (Hwf1 & Hnext1 & Hp1).
  fold r1 in Hnow1, Harmed1, Hwf1, Hnext1, Hp1.
  destruct (asyncValidator_armed checker2 timeout2 error2 c2 r1.2 Hwf1)
    as [Hnow2 Harmed2].
  destruct (asyncValidator_timers_allocated checker2 timeout2 error2 c2 r1.2 Hwf1)
    as (_ & _ & Hp2).
  assert (Hkept : armed r1.1 (now el + delay1)
                    (resolved_with checker1 error1 c1) r2.2).
  { apply asyncValidator_keeps_armed; [exact Harmed1|]. rewrite Hnext1, Hp1. lia. }
  fold r2 in Hnow2, Harmed2, Hp2. rewrite Hnow1 in Harmed2, Hnow2.
  fold delay2 in Harmed2.
  destruct (ticks_armed mss _ _ _ _ Hkept) as [Hpending1 Hfulfilled1].
  destruct (ticks_armed mss _ _ _ _ Harmed2) as [Hpending2 Hfulfilled2].
  rewrite Hnow2 in Hpending1, Hfulfilled1, Hpending2, Hfulfilled2.
  split; [rewrite Hp1, Hp2, Hnext1; lia|].
  split; [intros Hlt; apply Hpending1; lia|].
  split; [intros Hne Hge; apply Hfulfilled1; [exact Hne|lia]|].
  split; [intros Hlt; apply Hpending2; lia|].
  intros Hne Hge. apply Hfulfilled2; [exact Hne|lia].
Qed.

Lemma asyncValidator_independent_witness :
  promises
    (ticks [50]
       (asyncValidator (fun _ => true) (Some 10) VNull (untouched_control VNull)
          (asyncValidator (fun _ => false) (Some 100) VNull
             (untouched_control VNull) empty_loop).2).2)
    !! (asyncValidator (fun _ => false) (Some 100) VNull
          (untouched_control VNull) empty_loop).1
  = Some Pending.
Proof.
  refine (proj1 (proj2 (asyncValidator_independent (fun _ => false)
                          (fun _ => true) (Some 100) (Some 10) VNull VNull
                          (untouched_control VNull) (untouched_control VNull)
                          empty_loop [50] _)) _).
  - constructor.
  - simpl. lia.
Defined.

(** With the timeout and the error left out, the promise is fulfilled by
    the first [tick], whatever its length, with null or with
    [{'async': true}]. *)
Theorem asyncValidator_defaults (checker : AbstractControl -> bool)
    (c : AbstractControl) (el : event_loop) (mss : list Z) :
  timers_allocated el -> mss <> [] ->
  let r := asyncValidator checker None VUndefined c el in
  promises r.2 !! r.1 = Some Pending /\
  promises (ticks mss r.2) !! r.1
  = Some (Fulfilled (if checker c then VNull else default_async_error)).
Proof.
  intros Hwf Hne r.
  destruct (asyncValidator_armed checker None VUndefined c el Hwf)
    as [Hnow Harmed].
  fold r in Hnow, Harmed.
  destruct (ticks_armed mss _ _ _ _ Harmed) as [_ Hfulfilled].
  split; [apply Harmed|].
  apply Hfulfilled; [exact Hne|].
  rewrite Hnow. pose proof (elapsed_nonneg mss). simpl. lia.
Qed.

Lemma asyncValidator_defaults_witness :
  promises
    (ticks [0]
       (asyncValidator (fun _ => false) None VUndefined
          (untouched_control VNull) empty_loop).2)
    !! (asyncValidator (fun _ => false) None VUndefined
          (untouched_control VNull) empty_loop).1
  = Some (Fulfilled default_async_error).
Proof.
  refine (proj2 (asyncValidator_defaults (fun _ => false)
                   (untouched_control VNull) empty_loop [0] _ _)).
  - constructor.
  - discriminate.
Defined.

(** ** [UniqLoginValidator] *)

(** The directive's [validate] passes no timeout, so the promise it returns
    is pending when it returns and is fulfilled by the first [tick],
    whatever its length: with null when the control's value is the expected
    string, with [{'uniqLogin': true}] for every other value. *)
Theorem UniqLoginValidator_validate_first_tick (self : UniqLoginValidator)
    (c : AbstractControl) (el : event_loop) (mss : list Z) :
  timers_allocated el -> mss <> [] ->
  let r := UniqLoginValidator_validate self c el in
  promises r.2 !! r.1 = Some Pending /\
  (value c = VString (expected self) ->
   promises (ticks mss r.2) !! r.1 = Some (Fulfilled VNull)) /\
  (value c <> VString (expected self) ->
   promises (ticks mss r.2) !! r.1 = Some (Fulfilled uniqLogin_error)).
Proof.
  intros Hwf Hne r.
  destruct (asyncValidator_armed
              (fun c => strict_eq_string (value c) (expected self))
              None uniqLogin_error c el Hwf) as [Hnow Harmed].
  change (asyncValidator _ None uniqLogin_error c el) with r in Hnow, Harmed.
  destruct (ticks_armed mss _ _ _ _ Harmed) as [_ Hfulfilled].
  assert (Hdone : promises (ticks mss r.2) !! r.1
                  = Some (Fulfilled
                            (if strict_eq_string (value c) (expected self)
                             then VNull else uniqLogin_error))).
  { apply Hfulfilled; [exact Hne|].
    rewrite Hnow. pose proof (elapsed_nonneg mss). simpl. lia. }
  split; [apply Harmed|]. split.
  - intros Hvalue. rewrite Hdone, Hvalue. simpl.
    rewrite String.eqb_refl. reflexivity.
  - intros Hvalue. rewrite Hdone.
    destruct (value c) as [ | | b | n | s | elems | fields ]; simpl; try reflexivity.
    destruct (String.eqb s (expected self)) eqn:Heq; [|reflexivity].
    apply String.eqb_eq in Heq. congruence.
Qed.

Lemma UniqLoginValidator_validate_first_tick_witness :
  promises
    (ticks [0]
       (UniqLoginValidator_validate {| expected := "expected" |}
          (untouched_control (VString "expected")) empty_loop).2)
    !! (UniqLoginValidator_validate {| expected := "expected" |}
          (untouched_control (VString "expected")) empty_loop).1
  = Some (Fulfilled VNull).
Proof.
  refine (proj1 (proj2 (UniqLoginValidator_validate_first_tick
                          {| expected := "expected" |}
                          (untouched_control (VString "expected"))
                          empty_loop [0] _ _)) eq_refl).
  - constructor.
  - discriminate.
Defined.

(** ** [loginIsEmptyGroupValidator]: the missing control, the other
       controls, string values *)


(** For a login control that holds a string the validator is exact: it
    returns [{'loginIsEmpty': true}] for the empty string and null for
    every other string, blank ones included. *)
Theorem loginIsEmptyGroupValidator_string `{Host}
    (c : FormGroup) (login : AbstractControl) (s : string) :
  controls c !! "login" = Some login -> value login = VString s ->
  (s = "" -> loginIsEmptyGroupValidator c = Normal loginIsEmpty_error) /\
  (s <> "" -> loginIsEmptyGroupValidator c = Normal VNull).
Proof.
  intros Hlogin Hvalue. unfold loginIsEmptyGroupValidator.
  rewrite Hlogin, Hvalue. simpl. split.
  - intros ->. reflexivity.
  - intros Hne. destruct (String.eqb s "") eqn:Heq; [|reflexivity].
    apply String.eqb_eq in Heq. contradiction.
Qed.

Lemma loginIsEmptyGroupValidator_string_witness :
  @loginIsEmptyGroupValidator example_host (group_with_login (VString " "))
  = Normal VNull.
Proof.
  refine (proj2 (@loginIsEmptyGroupValidator_string example_host
                   (group_with_login (VString " "))
                   (untouched_control (VString " ")) " " eq_refl eq_refl) _).
  discriminate.
Defined.


(** ** The forms runtime with the helpers of the tests *)

Section AsyncFacts.
Context `{Host}.

(** An update whose sync validation passes starts the async validators on
    the control with the status PENDING and subscribes to their promises. *)
Lemma updateValueAndValidity_async (emitEvent : bool) (c : FormControl)
    (el : event_loop) (f : AsyncValidatorFn) (fs : list AsyncValidatorFn)
    (m : bool) :
  truthy (validation_result c (base c)) = false ->
  async_validators c = (f :: fs, m) ->
  let a := seen_by_async_validator (validation_result c (base c)) (base c) in
  let r := updateValueAndValidity emitEvent c el in
  r.2 = (call_async (f :: fs) a el).2 /\
  _asyncValidationSubscription r.1
  = Some {| sources := (call_async (f :: fs) a el).1;
            merged := m; emitEvent := emitEvent |}.
Proof.
  intros Hvalid Hasync a r. subst r a.
  unfold validation_result in *. unfold updateValueAndValidity.
  set (c0 := with_base (set_status VALID) c).
  set (c1 := set_subscription None c0).
  assert (He : _runValidator c1
               = match validator c with
                 | Some g => g (seen_by_validator (base c))
                 | None => VNull
                 end).
  { subst c1 c0. unfold _runValidator, validator. simpl.
    destruct (coerceToValidator (_rawValidators c)); reflexivity. }
  rewrite He. clear He.
  set (e := match validator c with
            | Some g => g (seen_by_validator (base c))
            | None => VNull
            end) in *.
  set (c2 := with_base (set_errors e) c1).
  set (c3 := with_base (set_status (_calculateStatus (base c2))) c2).
  assert (Hstatus3 : status c3 = VALID).
  { subst c3 c2. simpl. unfold _calculateStatus. simpl. rewrite Hvalid.
    reflexivity. }
  rewrite Hstatus3. unfold _runAsyncValidator.
  change (async_validators c3) with (async_validators c). rewrite Hasync.
  set (a := base (with_base (set_status PENDING) c3)).
  assert (Ha : a = seen_by_async_validator e (base c)).
  { subst a c3 c2 c1 c0. unfold seen_by_async_validator, _calculateStatus.
    simpl. rewrite Hvalid. reflexivity. }
  rewrite Ha. clear Ha a.
  destruct (call_async (f :: fs) (seen_by_async_validator e (base c)) el)
    as [ps el1].
  destruct emitEvent; split; reflexivity.
Qed.

Lemma with_control_fields (g : FormControl -> FormControl) (w : World) :
  control (with_control g w) = g (control w) /\
  loop (with_control g w) = loop w /\
  registered (with_control g w) = registered w /\
  input_value (with_control g w) = input_value w.
Proof. repeat split. Qed.

(** The same for the view-to-model update. *)
Lemma updateControl_async (w : World) (f : AsyncValidatorFn)
    (fs : list AsyncValidatorFn) (m : bool) :
  let c := control w in
  let updated := set_pristine (if _pendingDirty c then false else pristine c)
                   (set_value (_pendingValue c) (base c)) in
  truthy (validation_result c updated) = false ->
  async_validators c = (f :: fs, m) ->
  let a := seen_by_async_validator (validation_result c updated) updated in
  loop (updateControl w) = (call_async (f :: fs) a (loop w)).2 /\
  _asyncValidationSubscription (control (updateControl w))
  = Some {| sources := (call_async (f :: fs) a (loop w)).1;
            merged := m; emitEvent := true |}.
Proof.
  intros c updated Hvalid Hasync a. subst a.
  unfold updateControl.
  destruct (markAsDirty_if_pending w) as (Hc1 & _ & _ & Hloop1).
  set (w1 := if _pendingDirty (control w)
             then with_control markAsDirty w else w) in *.
  clearbody w1.
  unfold setValue. rewrite andb_false_r. unfold run_control.
  destruct (with_control_fields
              (fun c0 => set_pending (_pendingValue (control w1))
                           (_pendingChange c0) (_pendingDirty c0)
                           (_pendingTouched c0)
                           (with_base (set_value (_pendingValue (control w1))) c0))
              w1) as (Hcontrol & Hloop' & _).
  rewrite Hcontrol, Hloop', Hloop1. clear Hcontrol Hloop'.
  set (c2 := set_pending _ _ _ _ (with_base (set_value _) (control w1))).
  assert (Hbase2 : base c2 = updated).
  { subst c2 updated. rewrite Hc1. fold c.
    destruct c as [[v e st p t] pv pc pd pt u rv ra sub em]. reflexivity. }
  assert (Hval2 : validator c2 = validator c).
  { subst c2. rewrite Hc1. reflexivity. }
  assert (Hasync2 : async_validators c2 = (f :: fs, m)).
  { subst c2. rewrite Hc1. exact Hasync. }
  clearbody c2.
  assert (Hresult : validation_result c2 (base c2) = validation_result c updated).
  { unfold validation_result. rewrite Hval2, Hbase2. reflexivity. }
  assert (Hvalid2 : truthy (validation_result c2 (base c2)) = false)
    by (rewrite Hresult; exact Hvalid).
  destruct (updateValueAndValidity_async true c2 (loop w) f fs m Hvalid2 Hasync2)
    as [Hloop Hsub].
  rewrite Hresult, Hbase2 in Hloop, Hsub.
  destruct (updateValueAndValidity true c2 (loop w)) as [c3 el3].
  cbn [fst snd control loop with_control] in *.
  split; [exact Hloop|].
  destruct c3 as [b3 pv3 pc3 pd3 pt3 u3 rv3 ra3 sub3 em3].
  exact Hsub.
Qed.

End AsyncFacts.

(** *** Delivery of the async result *)

Lemma deliver_waiting (w : World) (sub : subscription) (p : nat) :
  _asyncValidationSubscription (control w) = Some sub ->
  sources sub = [p] -> promises (loop w) !! p = Some Pending ->
  deliver w = w.
Proof.
  intros Hsub Hsources Hp. unfold deliver. rewrite Hsub, Hsources. simpl.
  unfold fulfilled. rewrite Hp. reflexivity.
Qed.

Lemma deliver_done (w : World) (sub : subscription) (p : nat) (res : js_value) :
  _asyncValidationSubscription (control w) = Some sub ->
  sources sub = [p] -> promises (loop w) !! p = Some (Fulfilled res) ->
  deliver w = with_control (delivered sub [res]) w.
Proof.
  intros Hsub Hsources Hp. unfold deliver. rewrite Hsub, Hsources. simpl.
  unfold fulfilled. rewrite Hp. reflexivity.
Qed.

Lemma delivered_subscription (sub : subscription) (results : list js_value)
    (c : FormControl) :
  _asyncValidationSubscription (delivered sub results c) = None.
Proof. unfold delivered, setErrors. destruct (emitEvent sub); reflexivity. Qed.

Lemma foldl_deliver_idle (l : list timer) (start : World) :
  _asyncValidationSubscription (control start) = None ->
  control (foldl (fun acc t => deliver (with_loop (run_timer t) acc)) start l)
  = control start.
Proof.
  revert start. induction l as [|t l IH]; intros start Hsub; simpl; [reflexivity|].
  rewrite IH; rewrite deliver_idle by exact Hsub; [reflexivity | exact Hsub].
Qed.

Lemma foldl_deliver_waiting (l : list timer) (start : World)
    (sub : subscription) (p : nat) :
  _asyncValidationSubscription (control start) = Some sub ->
  sources sub = [p] -> promises (loop start) !! p = Some Pending ->
  (forall t, t ∈ l -> target t <> p) ->
  control (foldl (fun acc t => deliver (with_loop (run_timer t) acc)) start l)
  = control start.
Proof.
  revert start. induction l as [|t l IH]; intros start Hsub Hsources Hp Hall;
    simpl; [reflexivity|].
  assert (Hp' : promises (loop (with_loop (run_timer t) start)) !! p
                = Some Pending).
  { cbn [with_loop loop]. rewrite run_timer_other; [exact Hp|].
    apply Hall. set_solver. }
  rewrite (deliver_waiting (with_loop (run_timer t) start) sub p Hsub Hsources Hp').
  rewrite IH; try assumption; [reflexivity|].
  intros u Hu. apply Hall. set_solver.
Qed.

Lemma foldl_deliver_hit (l : list timer) (start : World)
    (sub : subscription) (p : nat) (res : js_value) :
  _asyncValidationSubscription (control start) = Some sub ->
  sources sub = [p] -> promises (loop start) !! p = Some Pending ->
  (forall t, t ∈ l -> target t = p -> result t = res) ->
  (exists t, t ∈ l /\ target t = p) ->
  control (foldl (fun acc t => deliver (with_loop (run_timer t) acc)) start l)
  = delivered sub [res] (control start).
Proof.
  revert start.
  induction l as [|t l IH]; intros start Hsub Hsources Hp Hres (u & Hin & Hu);
    simpl.
  - apply elem_of_nil in Hin. contradiction.
  - destruct (decide (target t = p)) as [Ht|Ht].
    + assert (Hp' : promises (loop (with_loop (run_timer t) start)) !! p
                    = Some (Fulfilled res)).
      { cbn [with_loop loop]. rewrite <- (Hres t) by (set_solver || exact Ht).
        rewrite <- Ht. apply run_timer_hit. rewrite Ht. exact Hp. }
      rewrite (deliver_done (with_loop (run_timer t) start) sub p res Hsub Hsources Hp').
      rewrite foldl_deliver_idle; [reflexivity|].
      apply delivered_subscription.
    + assert (Hp' : promises (loop (with_loop (run_timer t) start)) !! p
                    = Some Pending).
      { cbn [with_loop loop]. rewrite run_timer_other; [exact Hp | exact Ht]. }
      rewrite (deliver_waiting (with_loop (run_timer t) start) sub p Hsub Hsources Hp').
      rewrite IH; try assumption; [reflexivity | |].
      * intros x Hx. apply Hres. set_solver.
      * exists u. split; [|exact Hu].
        apply elem_of_cons in Hin as [->|Hin]; [contradiction | exact Hin].
Qed.

(** A [tick] that does not reach the timer leaves the control waiting. *)
Lemma world_tick_waiting (ms : Z) (w : World) (sub : subscription) (p : nat)
    (D : Z) (res : js_value) :
  _asyncValidationSubscription (control w) = Some sub -> sources sub = [p] ->
  armed p D res (loop w) -> now (loop w) + Z.max 0 ms < D ->
  control (world_tick ms w) = control w.
Proof.
  intros Hsub Hsources (Hp & _ & Hall) Hearly. unfold world_tick.
  rewrite (deliver_waiting w sub p Hsub Hsources Hp).
  cbn [with_loop control].
  rewrite (foldl_deliver_waiting _ _ sub p); try assumption; [reflexivity|].
  intros t Ht Htarget. apply elem_of_due_timers in Ht as [Ht Hdue].
  destruct (Hall t Ht Htarget) as [HD _]. lia.
Qed.

(** A [tick] that reaches the timer delivers its result to the control. *)
Lemma world_tick_delivers (ms : Z) (w : World) (sub : subscription) (p : nat)
    (D : Z) (res : js_value) :
  _asyncValidationSubscription (control w) = Some sub -> sources sub = [p] ->
  armed p D res (loop w) -> D <= now (loop w) + Z.max 0 ms ->
  control (world_tick ms w) = delivered sub [res] (control w).
Proof.
  intros Hsub Hsources (Hp & (t & Hin & Ht) & Hall) Hlate. unfold world_tick.
  rewrite (deliver_waiting w sub p Hsub Hsources Hp).
  cbn [with_loop control].
  rewrite (foldl_deliver_hit _ _ sub p res); try assumption; [reflexivity | |].
  - intros u Hu Htarget. apply elem_of_due_timers in Hu as [Hu _].
    apply (Hall u Hu Htarget).
  - exists t. split; [|exact Ht]. apply elem_of_due_timers. split; [exact Hin|].
    destruct (Hall t Hin Ht) as [HD _]. lia.
Qed.

Lemma world_ticks_single_source (mss : list Z) (w : World) (sub : subscription)
    (p : nat) (D : Z) (res : js_value) :
  _asyncValidationSubscription (control w) = Some sub -> sources sub = [p] ->
  armed p D res (loop w) ->
  (now (loop w) + elapsed mss < D -> control (world_ticks mss w) = control w) /\
  (mss <> [] -> D <= now (loop w) + elapsed mss ->
   control (world_ticks mss w) = delivered sub [res] (control w)).
Proof.
  revert w. induction mss as [|ms mss IH]; intros w Hsub Hsources Harmed.
  - split; [reflexivity | congruence].
  - change (elapsed (ms :: mss)) with (Z.max 0 ms + elapsed mss).
    change (world_ticks (ms :: mss) w) with (world_ticks mss (world_tick ms w)).
    pose proof (elapsed_nonneg mss) as Hnonneg.
    destruct (Z_lt_le_dec (now (loop w) + Z.max 0 ms) D) as [Hearly|Hlate].
    + pose proof (world_tick_waiting ms w sub p D res Hsub Hsources Harmed Hearly)
        as Hsame.
      assert (Harmed' : armed p D res (loop (world_tick ms w))).
      { rewrite world_tick_loop. apply tick_armed_early; assumption. }
      assert (Hsub' : _asyncValidationSubscription (control (world_tick ms w))
                      = Some sub) by (rewrite Hsame; exact Hsub).
      destruct (IH _ Hsub' Hsources Harmed') as [IHwait IHdone].
      rewrite world_tick_loop, tick_now, Hsame in IHwait, IHdone.
      split.
      * intros Hlt. apply IHwait. lia.
      * intros _ Hge. apply IHdone; [|lia].
        intros ->. simpl in Hge. lia.
    + split; [intros Hlt; lia|]. intros _ _.
      pose proof (world_tick_delivers ms w sub p D res Hsub Hsources Harmed Hlate)
        as Hdone.
      rewrite world_ticks_idle; [exact Hdone|]. rewrite Hdone.
      apply delivered_subscription.
Qed.

Section CombinedValidators.
Context `{Host}.

(** An [input] event on a control that updates on change is the
    view-to-model update of the pending value. *)
Lemma dispatch_input_on_change (s : string) (w : World) :
  registered w = true -> updateOn (control w) = on_change ->
  exists w0,
    dispatch_input s w = updateControl w0 /\
    control w0 = set_pending (VString s) true true
                   (_pendingTouched (control w)) (control w) /\
    loop w0 = loop w.
Proof.
  intros Hreg Hupd.
  exists (with_control
            (fun c => set_pending (VString s) true true (_pendingTouched c) c)
            {| control := control w; input_value := s;
               registered := registered w; loop := loop w |}).
  split; [|split; reflexivity].
  unfold dispatch_input. cbn [registered]. rewrite Hreg.
  cbn [with_control control updateOn set_pending]. rewrite Hupd. reflexivity.
Qed.

(** The control of the test that combines [Validators.required] with
    [uniqLoginAsyncValidator]: after an [input] event with a non-empty
    string the control is PENDING until the validator's timeout has
    passed; then it is VALID with the errors null if the string is the
    expected one, and INVALID with [{'uniqLogin': true}] otherwise. *)
Theorem required_then_uniqLogin (w : World) (good s : string)
    (timeout : option Z) (mss : list Z) :
  registered w = true -> updateOn (control w) = on_change ->
  _rawValidators (control w) = RawArray [required] ->
  _rawAsyncValidators (control w)
  = RawArray [uniqLoginAsyncValidator good timeout] ->
  timers_allocated (loop w) -> s <> "" ->
  let w1 := dispatch_input s w in
  let delay := Z.max 0 (default 0 timeout) in
  status (control w1) = PENDING /\
  (elapsed mss < delay -> status (control (world_ticks mss w1)) = PENDING) /\
  (mss <> [] -> delay <= elapsed mss ->
   (s = good ->
    status (control (world_ticks mss w1)) = VALID /\
    errors (control (world_ticks mss w1)) = VNull) /\
   (s <> good ->
    status (control (world_ticks mss w1)) = INVALID /\
    errors (control (world_ticks mss w1)) = uniqLogin_error)).
Proof.
  intros Hreg Hupd Hrv Hra Hwf Hs. cbv zeta.
  destruct (dispatch_input_on_change s w Hreg Hupd) as (w0 & -> & Hc0 & Hloop0).
  set (updated := set_pristine (if _pendingDirty (control w0) then false
                                else pristine (control w0))
                    (set_value (_pendingValue (control w0)) (base (control w0)))).
  assert (Hvalue : value updated = VString s).
  { subst updated. rewrite Hc0. reflexivity. }
  assert (Hresult : validation_result (control w0) updated = VNull).
  { unfold validation_result, validator. rewrite Hc0.
    cbn [set_pending _rawValidators]. rewrite Hrv.
    cbn [coerceToValidator compose map]. unfold required.
    change (value (seen_by_validator updated)) with (value updated).
    rewrite Hvalue. simpl.
    destruct (String.eqb s "") eqn:Heq; [|reflexivity].
    apply String.eqb_eq in Heq. contradiction. }
  assert (Hasync : async_validators (control w0)
                   = ([uniqLoginAsyncValidator good timeout], true)).
  { unfold async_validators. rewrite Hc0. cbn [set_pending _rawAsyncValidators].
    rewrite Hra. reflexivity. }
  destruct (updateControl_spec w0) as (_ & He & _ & _ & Hstatus & _).
  fold updated in He, Hstatus. rewrite Hresult in He, Hstatus.
  assert (Hpending : status (control (updateControl w0)) = PENDING).
  { rewrite Hstatus. unfold status_after_update. rewrite Hasync. reflexivity. }
  assert (Htruthy : truthy (validation_result (control w0) updated) = false)
    by (rewrite Hresult; reflexivity).
  destruct (updateControl_async w0 _ _ _ Htruthy Hasync) as [Hloop Hsub].
  fold updated in Hloop, Hsub. rewrite Hresult, Hloop0 in Hloop, Hsub.
  set (a := seen_by_async_validator VNull updated) in *.
  assert (Hva : value a = VString s) by exact Hvalue.
  clearbody a. clear Hvalue Hresult Hasync Hstatus Htruthy updated.
  destruct (asyncValidator_armed
              (fun c => strict_eq_string (value c) good)
              timeout uniqLogin_error a (loop w) Hwf) as [Hnow Harmed].
  change (asyncValidator _ timeout uniqLogin_error a (loop w))
    with (uniqLoginAsyncValidator good timeout a (loop w)) in Hnow, Harmed.
  unfold call_async in Hloop, Hsub.
  destruct (uniqLoginAsyncValidator good timeout a (loop w)) as [p el1].
  cbn [fst snd] in *. rewrite Hva in Harmed. cbn [strict_eq_string] in Harmed.
  rewrite <- Hloop in Harmed, Hnow.
  set (w1 := updateControl w0) in *. clearbody w1. clear Hc0 Hloop0 w0.
  set (sub := {| sources := [p]; merged := true; emitEvent := true |}) in *.
  destruct (world_ticks_single_source mss w1 sub p _ _ Hsub eq_refl Harmed)
    as [Hwait Hdone].
  rewrite Hnow in Hwait, Hdone.
  split; [exact Hpending|]. split.
  - intros Hlt. rewrite Hwait by lia. exact Hpending.
  - intros Hne Hge. rewrite Hdone by (try exact Hne; lia).
    split.
    + intros ->. rewrite String.eqb_refl. split; reflexivity.
    + intros Hdiff. destruct (String.eqb s good) eqn:Heq.
      * apply String.eqb_eq in Heq. contradiction.
      * split; reflexivity.
Qed.

End CombinedValidators.

Lemma required_then_uniqLogin_witness :
  status (control (world_ticks [0]
                     (@dispatch_input example_host "bad" combined_fixture)))
  = INVALID /\
  status (control (world_ticks [0]
                     (@dispatch_input example_host "good" combined_fixture)))
  = VALID.
Proof.
  split.
  - refine (proj1 (proj2 (proj2 (proj2
              (@required_then_uniqLogin example_host combined_fixture "good"
                 "bad" None [0] eq_refl eq_refl eq_refl eq_refl _ _)) _ _) _)).
    + repeat constructor.
    + discriminate.
    + discriminate.
    + simpl. lia.
    + discriminate.
  - refine (proj1 (proj1 (proj2 (proj2
              (@required_then_uniqLogin example_host combined_fixture "good"
                 "good" None [0] eq_refl eq_refl eq_refl eq_refl _ _)) _ _) _)).
    + repeat constructor.
    + discriminate.
    + discriminate.
    + simpl. lia.
    + reflexivity.
Defined.

(** *** Controls that update on submit, and values set by the program *)

Section DeferredUpdates.
Context `{Host}.

Lemma last_input_snoc (evs : list input_event) (ev : input_event) :
  last_input (evs ++ [ev])
  = match ev with input_of s => Some s | blur_of => last_input evs end.
Proof.
  unfold last_input. rewrite foldl_app. reflexivity.
Qed.

Lemma dispatch_all_snoc (evs : list input_event) (ev : input_event) (w : World) :
  dispatch_all (evs ++ [ev]) w = dispatch ev (dispatch_all evs w).
Proof.
  unfold dispatch_all. rewrite foldl_app. reflexivity.
Qed.

(** On a control that updates on submit a [blur] only records that the
    control was touched. *)
Lemma dispatch_blur_on_submit (w : World) :
  registered w = true -> updateOn (control w) = on_submit ->
  dispatch_blur w
  = with_control
      (fun c => set_pending (_pendingValue c) (_pendingChange c)
                  (_pendingDirty c) true c) w.
Proof.
  intros Hreg Hupd. unfold dispatch_blur. rewrite Hreg.
  cbn [with_control control updateOn set_pending]. rewrite Hupd.
  cbn [with_control control updateOn set_pending]. rewrite Hupd. reflexivity.
Qed.

(** What a series of [input] and [blur] events leaves behind on a control
    that updates on submit: only the pending fields change. *)
Lemma dispatch_all_on_submit (evs : list input_event) (w : World) :
  registered w = true -> updateOn (control w) = on_submit ->
  let c := control w in
  let c' := control (dispatch_all evs w) in
  registered (dispatch_all evs w) = true /\
  updateOn c' = on_submit /\
  base c' = base c /\ emitted c' = emitted c /\
  (forall s, last_input evs = Some s ->
     _pendingValue c' = VString s /\ _pendingChange c' = true /\
     _pendingDirty c' = true) /\
  (blur_of ∈ evs -> _pendingTouched c' = true).
Proof.
  intros Hreg Hupd. cbv zeta.
  induction evs as [|ev evs IH] using rev_ind.
  - repeat split; try assumption; try discriminate.
    intros Hin. inversion Hin.
  - destruct IH as (Hreg' & Hupd' & Hbase & Hem & Hlast & Hblur).
    rewrite dispatch_all_snoc. set (w' := dispatch_all evs w) in *.
    clearbody w'. destruct ev as [s|]; cbn [dispatch].
    + assert (Hne : updateOn (control w') <> on_change)
        by (rewrite Hupd'; discriminate).
      rewrite (dispatch_input_deferred s w' Hreg' Hne).
      cbn [control registered set_pending base emitted updateOn
           _pendingValue _pendingChange _pendingDirty _pendingTouched].
      split; [reflexivity|]. split; [exact Hupd'|].
      split; [exact Hbase|]. split; [exact Hem|]. split.
      * intros s' Hs'. rewrite last_input_snoc in Hs'.
        injection Hs' as ->. repeat split.
      * intros Hin. apply elem_of_app in Hin as [Hin|Hin]; [auto|].
        apply list_elem_of_singleton in Hin. discriminate.
    + rewrite (dispatch_blur_on_submit w' Hreg' Hupd').
      cbn [with_control control registered set_pending base emitted updateOn
           _pendingValue _pendingChange _pendingDirty _pendingTouched].
      split; [exact Hreg'|]. split; [exact Hupd'|].
      split; [exact Hbase|]. split; [exact Hem|]. split.
      * intros s' Hs'. rewrite last_input_snoc in Hs'. exact (Hlast s' Hs').
      * intros _. reflexivity.
Qed.

(** The [submit] event on a control that updates on submit: the pending
    flags are applied whether or not a change is pending; the pending value
    only when one is. *)
Lemma dispatch_submit_spec (w : World) :
  registered w = true -> updateOn (control w) = on_submit ->
  let c := control w in
  let c' := control (dispatch_submit w) in
  pristine c' = (if _pendingDirty c then false else pristine c) /\
  touched c' = (if _pendingTouched c then true else touched c) /\
  value c' = (if _pendingChange c then _pendingValue c else value c).
Proof.
  intros Hreg Hupd. cbv zeta.
  destruct (pending_flags_applied_spec w)
    as (Hv & _ & _ & Hpv & Hpc & Hu & _ & _ & _ & _).
  assert (Hflags : pristine (control (pending_flags_applied w))
                   = (if _pendingDirty (control w) then false
                      else pristine (control w)) /\
                   touched (control (pending_flags_applied w))
                   = (if _pendingTouched (control w) then true
                      else touched (control w))).
  { unfold pending_flags_applied.
    destruct (_pendingDirty (control w)); cbn [with_control control];
      [ change (_pendingTouched (markAsDirty (control w)))
          with (_pendingTouched (control w)) | ];
      destruct (_pendingTouched (control w)); split; reflexivity. }
  destruct Hflags as [Hp Ht].
  assert (Heq : dispatch_submit w
                = let w2 := pending_flags_applied w in
                  let w3 := if _pendingChange (control w2)
                            then setValue (_pendingValue (control w2))
                                   false true w2
                            else w2 in
                  match updateOn (control w3) with
                  | on_submit =>
                      if _pendingChange (control w3)
                      then with_control
                             (fun c => set_pending (_pendingValue c) false
                                         (_pendingDirty c) (_pendingTouched c) c)
                             w3
                      else w3
                  | _ => w3
                  end).
  { unfold dispatch_submit, _syncPendingControls. rewrite Hreg, Hupd.
    fold (pending_flags_applied w). reflexivity. }
  rewrite Heq. clear Heq. cbv zeta.
  set (w2 := pending_flags_applied w) in *. clearbody w2.
  rewrite Hpc. destruct (_pendingChange (control w)) eqn:Hchange.
  - destruct (setValue_spec (_pendingValue (control w2)) false true w2)
      as (Hv' & _ & Hp' & Ht' & _ & _ & Hpc' & _ & _ & Hu' & _).
    set (w3 := setValue (_pendingValue (control w2)) false true w2) in *.
    clearbody w3.
    rewrite Hu', Hu, Hupd, Hpc', Hpc.
    destruct w3 as [c3 iv3 reg3 el3].
    cbn [with_control control] in *.
    destruct c3 as [[v3 e3 st3 p3 t3] pv3 pc3 pd3 pt3 u3 rv3 ra3 sub3 em3].
    cbn [set_pending base value pristine touched] in *.
    subst. rewrite Hp, Ht, Hpv. repeat split; reflexivity.
  - rewrite Hu, Hupd, Hpc, Hp, Ht, Hv. repeat split; reflexivity.
Qed.

(** A control created with [updateOn: 'submit'] is not changed by [input]
    and [blur] events, in any number and order: its value, errors, status,
    dirty and touched state stay and nothing is emitted. The [submit] that
    follows gives it the string of the last [input] event and marks it
    dirty if there was one, and marks it touched if there was a [blur]. *)
Theorem deferred_until_submit (evs : list input_event) (w : World) :
  registered w = true -> updateOn (control w) = on_submit ->
  let typed := dispatch_all evs w in
  let submitted := dispatch_submit typed in
  (base (control typed) = base (control w) /\
   emitted (control typed) = emitted (control w)) /\
  (forall s, last_input evs = Some s ->
     value (control submitted) = VString s /\
     dirty (control submitted) = true) /\
  (blur_of ∈ evs -> touched (control submitted) = true).
Proof.
  intros Hreg Hupd. cbv zeta.
  destruct (dispatch_all_on_submit evs w Hreg Hupd)
    as (Hreg' & Hupd' & Hbase & Hem & Hlast & Hblur).
  set (typed := dispatch_all evs w) in *. clearbody typed.
  destruct (dispatch_submit_spec typed Hreg' Hupd') as (Hp & Ht & Hv).
  split; [split; assumption|]. split.
  - intros s Hs. destruct (Hlast s Hs) as (Hpv & Hpc & Hpd).
    unfold dirty. rewrite Hv, Hp, Hpc, Hpd, Hpv. split; reflexivity.
  - intros Hin. rewrite Ht, (Hblur Hin). reflexivity.
Qed.

(** A [blur] on a control that updates on blur: the pending value is
    applied when a change is pending; the element keeps what it shows. *)
Lemma dispatch_blur_spec (w : World) :
  registered w = true -> updateOn (control w) = on_blur ->
  value (control (dispatch_blur w))
  = (if _pendingChange (control w) then _pendingValue (control w)
     else value (control w)) /\
  input_value (dispatch_blur w) = input_value w.
Proof.
  intros Hreg Hupd.
  destruct (_pendingChange (control w)) eqn:Hchange.
  - rewrite (dispatch_blur_pending w Hreg Hupd Hchange).
    set (w1 := with_control (fun c => set_pending _ _ _ true c) w).
    assert (Hpv : _pendingValue (control w1) = _pendingValue (control w))
      by reflexivity.
    assert (Hiv : input_value w1 = input_value w) by reflexivity.
    clearbody w1.
    destruct (updateControl_spec w1)
      as (Hv & _ & _ & _ & _ & _ & _ & _ & _ & _ & _ & _ & _ & _ & Hin & _).
    set (w2 := updateControl w1) in *. clearbody w2.
    destruct w2 as [c2 iv2 reg2 el2].
    cbn [with_control control input_value] in *.
    destruct c2 as [[v2 e2 st2 p2 t2] pv2 pc2 pd2 pt2 u2 rv2 ra2 sub2 em2].
    cbn [markAsTouched with_base base value set_touched] in *.
    split; congruence.
  - unfold dispatch_blur. rewrite Hreg.
    cbn [with_control control updateOn set_pending _pendingChange].
    rewrite Hupd, Hchange.
    cbn [with_control control updateOn set_pending _pendingChange].
    rewrite Hupd. split; reflexivity.
Qed.

(** A value set by the program on a control that updates on blur is not
    held back and not lost: after [setValue(v)] the control has the value
    [v] and the element shows it, whatever was typed before and not yet
    applied; and the next [blur] keeps both, the pending input is not
    applied any more. The element shows [v] as the string [s] it is
    converted to, sanitized; the hypothesis is that [v] can be
    converted. *)
Theorem programmatic_value_sticks (ss : list string) (v : js_value)
    (s : string) (w : World) :
  registered w = true -> updateOn (control w) = on_blur ->
  element_string v = Normal s ->
  let set := setValue v true true (inputs ss w) in
  let blurred := dispatch_blur set in
  (value (control set) = v /\ input_value set = s) /\
  (value (control blurred) = v /\ input_value blurred = s).
Proof.
  intros Hreg Hupd Hs. cbv zeta.
  assert (Htyped : registered (inputs ss w) = true /\
                   updateOn (control (inputs ss w)) = on_blur).
  { destruct ss as [|x ss] using rev_ind; [split; assumption|].
    assert (Hne : updateOn (control w) <> on_change)
      by (rewrite Hupd; discriminate).
    rewrite (inputs_deferred ss x w Hreg Hne). split; [reflexivity|exact Hupd]. }
  destruct Htyped as [Hreg1 Hupd1].
  set (typed := inputs ss w) in *. clearbody typed.
  destruct (setValue_spec v true true typed)
    as (Hv & _ & _ & _ & _ & Hpv & _ & _ & _ & Hu & _ & _ & _ & Hr & Hin & _).
  rewrite Hreg1 in Hr, Hin. cbn [andb] in Hin. rewrite Hupd1 in Hu.
  unfold written in Hin. rewrite Hs in Hin.
  set (w2 := setValue v true true typed) in *. clearbody w2.
  destruct (dispatch_blur_spec w2 Hr Hu) as [Hbv Hbin].
  split; [split; assumption|].
  rewrite Hbv, Hbin, Hpv, Hv, Hin. split; [|reflexivity].
  destruct (_pendingChange (control w2)); reflexivity.
Qed.

End DeferredUpdates.

Lemma deferred_until_submit_witness :
  value (control (@dispatch_submit example_host
                    (@dispatch_all example_host
                       [input_of "Nancy"; blur_of] submit_fixture)))
  = VString "Nancy".
Proof.
  refine (proj1 (proj1 (proj2
            (@deferred_until_submit example_host [input_of "Nancy"; blur_of]
               submit_fixture _ _)) "Nancy" _)); reflexivity.
Defined.

Lemma programmatic_value_sticks_witness :
  input_value (@dispatch_blur example_host
                 (@setValue example_host (VString "Nancy") true true
                    (@inputs example_host ["aa"] blur_fixture)))
  = "Nancy".
Proof.
  refine (proj2 (proj2
            (@programmatic_value_sticks example_host ["aa"] (VString "Nancy")
               "Nancy" blur_fixture _ _ _))); reflexivity.
Defined.
